(** * Multi-agent tourism assistant: the three API adapters and the orchestrator

    A shallow embedding of [streamlit_app.py].  The adapters parse JSON bodies
    with Python's dynamically typed operations, so the embedding works on a
    type of Python values as [response.json()] yields them, with every
    operator raising where Python raises.  HTTP providers are an environment
    mapping requests to responses; the Streamlit calls and the HTTP requests a
    run performs are collected in a trace. *)

From Stdlib Require Import ZArith List String Ascii Bool Lia.
From Stdlib Require Import Floats.SpecFloat.
Import ListNotations.
Local Open Scope string_scope.
Local Open Scope list_scope.
Local Open Scope Z_scope.

(** ** Python values *)

(** The values [response.json()] can return: [None], [bool], [int], [float],
    [str], [list] and [dict] with [str] keys.  A [dict] is its list of items
    in insertion order; the keys of a real [dict] are pairwise distinct, and
    [assoc] below reads the first binding of a key. *)
#[warnings="-register-all"]
Inductive json : Type :=
| JNull
| JBool (b : bool)
| JInt (z : Z)
| JFloat (f : spec_float)
| JStr (s : string)
| JArr (items : list json)
| JObj (fields : list (string * json)).

(** The exceptions the adapters can meet.  All of them are subclasses of
    [Exception], which is what every adapter catches. *)
Inductive exc : Type :=
| TypeError
| KeyError
| IndexError
| AttributeError
| ValueError
| OverflowError
| ConnectionError
| HTTPError (status : Z)
| JSONDecodeError.

(** A computation that returns or raises. *)
Inductive exn (A : Type) : Type :=
| Ret (a : A)
| Raise (e : exc).
Arguments Ret {A} a.
Arguments Raise {A} e.

Definition bind {A B : Type} (m : exn A) (k : A -> exn B) : exn B :=
  match m with
  | Ret a => k a
  | Raise e => Raise e
  end.

Declare Scope exn_scope.
Delimit Scope exn_scope with exn.
Notation "x <- m ;; k" := (bind m (fun x => k))
  (at level 100, m at next level, right associativity) : exn_scope.
Notation "' p <- m ;; k" := (bind m (fun p => k))
  (at level 100, p pattern, m at next level, right associativity) : exn_scope.
Local Open Scope exn_scope.

(** ** Python operators on values *)

Fixpoint assoc (k : string) (fields : list (string * json)) : option json :=
  match fields with
  | [] => None
  | (k', v) :: rest => if String.eqb k k' then Some v else assoc k rest
  end.

Definition is_str (s : string) (v : json) : bool :=
  match v with
  | JStr t => String.eqb s t
  | _ => false
  end.

(** [s in t] on two [str]: [s] occurs in [t] as a substring. *)
Fixpoint substring_of (s t : string) : bool :=
  if String.prefix s t then true
  else match t with
       | EmptyString => false
       | String _ t' => substring_of s t'
       end.

(** [bool(v)]. *)
Definition truthy (v : json) : bool :=
  match v with
  | JNull => false
  | JBool b => b
  | JInt z => negb (z =? 0)
  | JFloat (S754_zero _) => false
  | JFloat _ => true
  | JStr s => negb (String.eqb s "")
  | JArr items => match items with [] => false | _ => true end
  | JObj fields => match fields with [] => false | _ => true end
  end.

(** [k in v] for a [str] key [k]: key membership on a [dict], item equality
    on a [list], substring on a [str]; the other types are not iterable. *)
Definition py_contains (k : string) (v : json) : exn bool :=
  match v with
  | JObj fields => Ret (match assoc k fields with Some _ => true | None => false end)
  | JArr items => Ret (existsb (is_str k) items)
  | JStr t => Ret (substring_of k t)
  | _ => Raise TypeError
  end.

(** [v[k]] for a [str] key [k]. *)
Definition py_item (v : json) (k : string) : exn json :=
  match v with
  | JObj fields => match assoc k fields with Some x => Ret x | None => Raise KeyError end
  | _ => Raise TypeError
  end.

(** [v.get(k, default)]: only [dict] has the method. *)
Definition py_get (v : json) (k : string) (default : json) : exn json :=
  match v with
  | JObj fields => Ret (match assoc k fields with Some x => x | None => default end)
  | _ => Raise AttributeError
  end.

(** [len(v)]. *)
Definition py_len (v : json) : exn Z :=
  match v with
  | JStr s => Ret (Z.of_nat (String.length s))
  | JArr items => Ret (Z.of_nat (List.length items))
  | JObj fields => Ret (Z.of_nat (List.length fields))
  | _ => Raise TypeError
  end.

(** [v[0]]: the first item of a [list], the first character of a [str]; a
    [dict] from JSON has only [str] keys, so the key [0] is never there. *)
Definition py_first (v : json) : exn json :=
  match v with
  | JArr (x :: _) => Ret x
  | JArr [] => Raise IndexError
  | JStr (String c _) => Ret (JStr (String c EmptyString))
  | JStr EmptyString => Raise IndexError
  | JObj _ => Raise KeyError
  | _ => Raise TypeError
  end.

(** What [for x in v] iterates over. *)
Fixpoint chars (s : string) : list json :=
  match s with
  | EmptyString => []
  | String c s' => JStr (String c EmptyString) :: chars s'
  end.

Definition py_iter (v : json) : exn (list json) :=
  match v with
  | JArr items => Ret items
  | JStr s => Ret (chars s)
  | JObj fields => Ret (map (fun kv => JStr (fst kv)) fields)
  | _ => Raise TypeError
  end.

(** ** Hashing: what [dict] and [set] compare

    Membership in a [set] and lookup in a [dict] go through [hash] and [==].
    Python identifies [True] with [1], [False] with [0] and a float of integral
    value with that integer; [list] and [dict] are unhashable.  A [key] is the
    canonical representative of a hashable value, so that two values are the
    same set element exactly when their keys are equal.  (The decoder hands
    out one [nan] object for every NaN of a body, which a set finds by
    identity: NaN has one key too.) *)
Inductive key : Type :=
| KNone
| KNum (z : Z)
| KFloat (f : spec_float)
| KStr (s : string).

(** Strip the trailing zero bits of a mantissa, so that a finite non-zero
    float has one representation. *)
Fixpoint strip (m : positive) (e : Z) : positive * Z :=
  match m with
  | xO p => strip p (e + 1)
  | _ => (m, e)
  end.

Definition float_key (f : spec_float) : key :=
  match f with
  | S754_zero _ => KNum 0
  | S754_finite s m e =>
      let (m', e') := strip m e in
      if 0 <=? e'
      then KNum ((if s then -1 else 1) * Z.pos m' * 2 ^ e')
      else KFloat (S754_finite s m' e')
  | _ => KFloat f
  end.

Definition py_hash (v : json) : exn key :=
  match v with
  | JNull => Ret KNone
  | JBool b => Ret (KNum (if b then 1 else 0))
  | JInt z => Ret (KNum z)
  | JFloat f => Ret (float_key f)
  | JStr s => Ret (KStr s)
  | JArr _ | JObj _ => Raise TypeError
  end.

Definition key_eq_dec (a b : key) : {a = b} + {a <> b}.
Proof.
  decide equality; try apply string_dec; try apply Z.eq_dec.
  decide equality; try apply Z.eq_dec; try apply Pos.eq_dec; apply bool_dec.
Defined.

Definition key_in (k : key) (seen : list key) : bool :=
  if in_dec key_eq_dec k seen then true else false.

(** ** [str.replace] and [str.title] on ASCII text

    Characters outside the ASCII letters are uncased here and are carried
    over unchanged: the two functions are [str.replace] and [str.title] on
    ASCII text, and what is proved of the letters of a display type is
    stated for ASCII tag values. *)
Definition is_lower (c : ascii) : bool :=
  let n := N_of_ascii c in ((97 <=? n) && (n <=? 122))%N.

Definition is_upper (c : ascii) : bool :=
  let n := N_of_ascii c in ((65 <=? n) && (n <=? 90))%N.

Definition to_upper (c : ascii) : ascii :=
  if is_lower c then ascii_of_N (N_of_ascii c - 32) else c.

Definition to_lower (c : ascii) : ascii :=
  if is_upper c then ascii_of_N (N_of_ascii c + 32) else c.

Fixpoint replace_char (old new : ascii) (s : string) : string :=
  match s with
  | EmptyString => EmptyString
  | String c s' =>
      String (if Ascii.eqb c old then new else c) (replace_char old new s')
  end.

(** [str.title]: a cased character that follows a cased character is
    lower-cased, any other cased character is upper-cased. *)
Fixpoint title_from (previous_is_cased : bool) (s : string) : string :=
  match s with
  | EmptyString => EmptyString
  | String c s' =>
      String (if previous_is_cased then to_lower c else to_upper c)
             (title_from (is_lower c || is_upper c) s')
  end.

Definition title (s : string) : string := title_from false s.

(** [v.replace('_', ' ').title()]: both are methods of [str] only. *)
Definition py_replace_title (v : json) : exn string :=
  match v with
  | JStr s => Ret (title (replace_char "_" " " s))
  | _ => Raise AttributeError
  end.

(** ** The data model *)

(** [Location]: [latitude] and [longitude] are the results of [float(...)];
    [display_name] is taken from the body as it is. *)
Record Location : Type := mkLocation {
  loc_name : string;
  loc_latitude : spec_float;
  loc_longitude : spec_float;
  loc_display_name : json
}.

(** [WeatherInfo]: the three numeric fields are stored as the body has them
    (or the [int] default [0]); no conversion is applied. *)
Record WeatherInfo : Type := mkWeatherInfo {
  temperature : json;
  rain_chance : json;
  weather_code : json;
  description : string
}.

(** [Place]. *)
Record Place : Type := mkPlace {
  place_name : json;
  place_type : string;
  place_latitude : json;
  place_longitude : json
}.

(** ** Providers and the trace of a run *)

(** The three HTTP requests.  The Overpass query text is fixed up to the
    coordinates and the number after [out center], which is [limit * 3]. *)
Inductive request : Type :=
| Geocode (q : string)
| Forecast (latitude longitude : spec_float)
| Overpass (latitude longitude : spec_float) (out_center : Z).

(** What a request comes back with: [requests.get]/[requests.post] raises,
    [raise_for_status] raises on the status (a 4xx or a 5xx),
    [response.json()] raises, or a parsed body. *)
Inductive response : Type :=
| Unreachable
| Status (code : Z)
| Malformed
| Body (data : json).

Definition providers : Type := request -> response.

(** [requests.get(...)], [raise_for_status()] and [json()] in a row. *)
Definition body_of (r : response) : exn json :=
  match r with
  | Unreachable => Raise ConnectionError
  | Status code => Raise (HTTPError code)
  | Malformed => Raise JSONDecodeError
  | Body data => Ret data
  end.

Inductive stage : Type := Geocoding | Weather | Places.

(** What a run does that can be observed: the requests it sends and the
    Streamlit calls it makes, in order. *)
Inductive event : Type :=
| Spinner (s : stage)
| Sent (r : request)
| StError (s : stage) (e : exc)
| StErrorNotFound (place : string)
| StSuccess (display_name : json)
| StSubheader (s : stage)
| StMetric (label : string) (value : json)
| StWrite (idx : Z) (name : json) (type : string)
| StWarning.

(** A computation that reads the providers and appends to the trace. *)
Definition io (A : Type) : Type := providers -> A * list event.

Definition io_ret {A : Type} (a : A) : io A := fun _ => (a, []).

Definition io_bind {A B : Type} (m : io A) (k : A -> io B) : io B :=
  fun env =>
    let (a, t1) := m env in
    let (b, t2) := k a env in
    (b, t1 ++ t2).

Definition emit (e : event) : io unit := fun _ => (tt, [e]).

Definition send (r : request) : io response := fun env => (env r, [Sent r]).

Declare Scope io_scope.
Delimit Scope io_scope with io.
Notation "x <~ m ;; k" := (io_bind m (fun x => k))
  (at level 100, m at next level, right associativity) : io_scope.
Notation "m ;;; k" := (io_bind m (fun _ => k))
  (at level 100, right associativity) : io_scope.

(** [try: ... except Exception as e: st.error(...); return fallback], for a
    body whose only effect is the request made first. *)
Definition try_except {A B : Type} (s : stage) (r : request)
    (body : json -> exn A) (ok : A -> B) (fallback : B) : io B :=
  (resp <~ send r ;;
   match bind (body_of resp) body with
   | Ret a => io_ret (ok a)
   | Raise e => (emit (StError s e) ;;; io_ret fallback)
   end)%io.

(** ** WeatherAgent *)

Definition weather_codes : list (Z * string) :=
  [ (0, "clear sky"); (1, "mainly clear"); (2, "partly cloudy"); (3, "overcast");
    (45, "foggy"); (48, "foggy"); (51, "light drizzle"); (53, "moderate drizzle");
    (55, "dense drizzle"); (61, "slight rain"); (63, "moderate rain");
    (65, "heavy rain"); (71, "slight snow"); (73, "moderate snow");
    (75, "heavy snow"); (95, "thunderstorm") ].

Fixpoint table_get (code : Z) (table : list (Z * string)) : option string :=
  match table with
  | [] => None
  | (c, phrase) :: rest => if code =? c then Some phrase else table_get code rest
  end.

(** [weather_codes.get(code, "unknown weather")]: the lookup hashes [code],
    and every key of the table is an [int]. *)
Definition _get_weather_description (code : json) : exn string :=
  k <- py_hash code ;;
  Ret (match k with
       | KNum z => match table_get z weather_codes with
                   | Some phrase => phrase
                   | None => "unknown weather"
                   end
       | _ => "unknown weather"
       end).

(** The body of the [try] block of [get_weather], after the request. *)
Definition parse_weather (data : json) : exn WeatherInfo :=
  current <- py_get data "current" (JObj []) ;;
  daily <- py_get data "daily" (JObj []) ;;
  present <- py_contains "precipitation_probability_max" daily ;;
  rain_chance <-
    (if present then
       rain_probs <- py_item daily "precipitation_probability_max" ;;
       if truthy rain_probs then
         n <- py_len rain_probs ;;
         if n >? 0 then py_first rain_probs else Ret (JInt 0)
       else Ret (JInt 0)
     else Ret (JInt 0)) ;;
  weather_code <- py_get current "weather_code" (JInt 0) ;;
  description <- _get_weather_description weather_code ;;
  temperature <- py_get current "temperature_2m" (JInt 0) ;;
  Ret (mkWeatherInfo temperature rain_chance weather_code description).

Definition get_weather (location : Location) : io (option WeatherInfo) :=
  try_except Weather
    (Forecast (loc_latitude location) (loc_longitude location))
    parse_weather Some None.

(** ** PlacesAgent *)

(** Lines 126-131: the coordinates of a candidate.  [None] is the [continue]
    of the [else] branch. *)
Definition coordinates (element : json) : exn (option (json * json)) :=
  has_lat <- py_contains "lat" element ;;
  has_lon <- (if has_lat then py_contains "lon" element else Ret false) ;;
  if has_lon then
    lat <- py_item element "lat" ;;
    lon <- py_item element "lon" ;;
    Ret (Some (lat, lon))
  else
    has_center <- py_contains "center" element ;;
    if has_center then
      center <- py_item element "center" ;;
      lat <- py_item center "lat" ;;
      center' <- py_item element "center" ;;
      lon <- py_item center' "lon" ;;
      Ret (Some (lat, lon))
    else Ret None.

(** The two variables the loop updates. *)
Record acc : Type := mkAcc {
  places : list Place;
  seen_names : list key
}.

(** How one iteration of the loop ends: on to the next element ([continue] or
    the end of the body), or [break]. *)
Inductive flow : Type :=
| Next (a : acc)
| Break (a : acc).

(** Lines 126-147: the body of the loop on one element. *)
Definition visit (limit : Z) (a : acc) (element : json) : exn flow :=
  c <- coordinates element ;;
  match c with
  | None => Ret (Next a)
  | Some (lat, lon) =>
      tags <- py_get element "tags" (JObj []) ;;
      name <- py_get tags "name" (JStr "") ;;
      if negb (truthy name) then Ret (Next a)
      else
        k <- py_hash name ;;
        if key_in k (seen_names a) then Ret (Next a)
        else
          historic <- py_get tags "historic" (JStr "attraction") ;;
          attraction_type <- py_get tags "tourism" historic ;;
          type <- py_replace_title attraction_type ;;
          let a' := mkAcc (places a ++ [mkPlace name type lat lon])
                          (k :: seen_names a) in
          if Z.of_nat (List.length (places a')) >=? limit
          then Ret (Break a')
          else Ret (Next a')
  end.

(** The [for] loop, and the [return places] after it. *)
Fixpoint for_each (limit : Z) (elements : list json) (a : acc) : exn (list Place) :=
  match elements with
  | [] => Ret (places a)
  | element :: rest =>
      f <- visit limit a element ;;
      match f with
      | Next a' => for_each limit rest a'
      | Break a' => Ret (places a')
      end
  end.

(** The body of the [try] block of [get_tourist_attractions], after the
    request. *)
Definition parse_places (limit : Z) (data : json) : exn (list Place) :=
  elements <- py_get data "elements" (JArr []) ;;
  items <- py_iter elements ;;
  for_each limit items (mkAcc [] []).

Definition get_tourist_attractions (location : Location) (limit : Z)
  : io (list Place) :=
  try_except Places
    (Overpass (loc_latitude location) (loc_longitude location) (limit * 3))
    (parse_places limit) (fun ps => ps) [].

(** ** GeocodeAgent and the orchestrator *)

(** What [process_query] has in its local variables when it returns (the
    method itself returns [None]).  [None] in [out_weather] or [out_places]
    is a lookup that was not made. *)
Record outcome : Type := mkOutcome {
  out_location : option Location;
  out_weather : option (option WeatherInfo);
  out_places : option (list Place)
}.

Section Agents.

(** Python's builtin [float], which parses the numeric strings of the
    geocoder; it raises on what it cannot convert. *)
Variable py_float : json -> exn spec_float.

(** The body of the [try] block of [get_coordinates], after the request. *)
Definition parse_location (place_name : string) (data : json)
  : exn (option Location) :=
  if negb (truthy data) then Ret None
  else
    location_data <- py_first data ;;
    lat <- py_item location_data "lat" ;;
    latitude <- py_float lat ;;
    lon <- py_item location_data "lon" ;;
    longitude <- py_float lon ;;
    display_name <- py_item location_data "display_name" ;;
    Ret (Some (mkLocation place_name latitude longitude display_name)).

Definition get_coordinates (place_name : string) : io (option Location) :=
  try_except Geocoding (Geocode place_name)
    (parse_location place_name) (fun l => l) None.

(** Lines 172-180: the weather panel. *)
Definition show_weather (weather : option WeatherInfo) : io unit :=
  match weather with
  | Some w =>
      (emit (StSubheader Weather) ;;;
       emit (StMetric "Temperature" (temperature w)) ;;;
       emit (StMetric "Conditions" (JStr (title (description w)))) ;;;
       emit (StMetric "Rain Chance" (rain_chance w)))%io
  | None => io_ret tt
  end.

(** Lines 187-188: one line per place, numbered from 1. *)
Fixpoint write_places (idx : Z) (ps : list Place) : io unit :=
  match ps with
  | [] => io_ret tt
  | p :: rest =>
      (emit (StWrite idx (place_name p) (place_type p)) ;;;
       write_places (idx + 1) rest)%io
  end.

(** Lines 185-190: the places panel, or the warning. *)
Definition show_places (ps : list Place) : io unit :=
  match ps with
  | [] => emit StWarning
  | _ => (emit (StSubheader Places) ;;; write_places 1 ps)%io
  end.

Definition process_query (place_name : string) (get_weather_flag get_places_flag : bool)
  : io outcome :=
  (emit (Spinner Geocoding) ;;;
   location <~ get_coordinates place_name ;;
   match location with
   | None =>
       emit (StErrorNotFound place_name) ;;;
       io_ret (mkOutcome None None None)
   | Some loc =>
       emit (StSuccess (loc_display_name loc)) ;;;
       weather <~ (if get_weather_flag then
                     emit (Spinner Weather) ;;;
                     w <~ get_weather loc ;;
                     show_weather w ;;;
                     io_ret (Some w)
                   else io_ret None) ;;
       found <~ (if get_places_flag then
                   emit (Spinner Places) ;;;
                   ps <~ get_tourist_attractions loc 5 ;;
                   show_places ps ;;;
                   io_ret (Some ps)
                 else io_ret None) ;;
       io_ret (mkOutcome (Some loc) weather found)
   end)%io.

End Agents.

(** * The vocabulary of the properties *)

(** ** Traces *)

(** The request each lookup sends for a location. *)
Definition forecast_of (location : Location) : request :=
  Forecast (loc_latitude location) (loc_longitude location).

Definition overpass_of (location : Location) (limit : Z) : request :=
  Overpass (loc_latitude location) (loc_longitude location) (limit * 3).

(** The requests of a trace, in the order they were sent. *)
Definition requests_of (t : list event) : list request :=
  flat_map (fun e => match e with Sent r => [r] | _ => [] end) t.

(** The Streamlit calls that stay on the page: everything but the requests
    and the spinners. *)
Definition notices (t : list event) : list event :=
  filter (fun e => match e with Sent _ | Spinner _ => false | _ => true end) t.

(** ** Forecast bodies *)

(** The daily precipitation series of a forecast body, when it has one. *)
Definition daily_series (data : json) : option json :=
  match data with
  | JObj fields =>
      match assoc "daily" fields with
      | Some (JObj daily) => assoc "precipitation_probability_max" daily
      | _ => None
      end
  | _ => None
  end.

(** A forecast body of the documented shape: an object whose [current] and
    [daily], when present, are objects, with a scalar weather code and a
    series that is a list or [null]. *)
Definition plain_forecast (data : json) : bool :=
  match data with
  | JObj fields =>
      match assoc "current" fields with
      | None => true
      | Some (JObj current) =>
          match assoc "weather_code" current with
          | Some (JArr _) | Some (JObj _) => false
          | _ => true
          end
      | Some _ => false
      end
      &&
      match assoc "daily" fields with
      | None => true
      | Some (JObj daily) =>
          match assoc "precipitation_probability_max" daily with
          | None | Some JNull | Some (JArr _) => true
          | Some _ => false
          end
      | Some _ => false
      end
  | _ => false
  end.

(** ** Candidates and the places built from them *)

(** The candidates of a body: what the loop iterates over. *)
Definition candidates (data : json) : exn (list json) :=
  elements <- py_get data "elements" (JArr []) ;;
  py_iter elements.

(** The candidates the provider offers for a lookup. *)
Definition offered (env : providers) (location : Location) (limit : Z)
    (elements : list json) : Prop :=
  exists data,
    env (overpass_of location limit) = Body data /\
    candidates data = Ret elements.

(** The category tag of a candidate: the [tourism] tag if present, else the
    [historic] tag, else the literal. *)
Definition category_tag (tags : list (string * json)) : json :=
  match assoc "tourism" tags with
  | Some v => v
  | None => match assoc "historic" tags with
            | Some v => v
            | None => JStr "attraction"
            end
  end.

(** Underscores to spaces, then title case. *)
Definition normalize (raw : string) : string :=
  title (replace_char "_" " " raw).







(** The coordinates of a candidate: a direct pair, else those of its
    [center]. *)
Definition position (fields : list (string * json)) : option (json * json) :=
  match assoc "lat" fields, assoc "lon" fields with
  | Some lat, Some lon => Some (lat, lon)
  | _, _ =>
      match assoc "center" fields with
      | Some (JObj center) =>
          match assoc "lat" center, assoc "lon" center with
          | Some lat, Some lon => Some (lat, lon)
          | _, _ => None
          end
      | _ => None
      end
  end.

(** [p] is the [Place] the loop builds from the candidate [element]. *)
Definition built_from (p : Place) (element : json) : Prop :=
  exists fields tags raw,
    element = JObj fields /\
    position fields = Some (place_latitude p, place_longitude p) /\
    assoc "tags" fields = Some (JObj tags) /\
    assoc "name" tags = Some (place_name p) /\
    truthy (place_name p) = true /\
    category_tag tags = JStr raw /\
    place_type p = normalize raw.

(** [ps] is built from candidates picked out of [elements], in their order. *)
Inductive picks : list Place -> list json -> Prop :=
| picks_done : forall elements, picks [] elements
| picks_skip : forall ps element elements,
    picks ps elements -> picks ps (element :: elements)
| picks_take : forall p ps element elements,
    built_from p element -> picks ps elements ->
    picks (p :: ps) (element :: elements).

(** A candidate with neither a direct pair nor a [center]. *)
Definition lacks_coordinates (element : json) : bool :=
  match element with
  | JObj fields =>
      negb (match assoc "lat" fields, assoc "lon" fields with
            | Some _, Some _ => true
            | _, _ => false
            end)
      && match assoc "center" fields with Some _ => false | None => true end
  | _ => false
  end.

(** ** The loop *)

(** The two variables before the loop. *)
Definition init : acc := mkAcc [] [].

(** What an iteration does when it skips a candidate after looking at its
    coordinates: the accumulator is left as it is. *)
Definition skip (a : acc) (element : json) : exn flow :=
  c <- coordinates element ;;
  Ret (Next a).

(** The name of [p] hashes to [k]. *)
Definition hashes_to (p : Place) (k : key) : Prop :=
  py_hash (place_name p) = Ret k.

(** What the loop keeps true of its two variables: [seen_names] holds the
    keys of the names of [places], newest first, each once. *)
Record consistent (a : acc) : Prop := mkConsistent {
  seen_of_places : Forall2 hashes_to (places a) (rev (seen_names a));
  seen_once : NoDup (seen_names a)
}.

(** Two states of the loop with the same places and the same set of seen
    names, in whatever order the set holds them. *)
Definition same_seen (a a' : acc) : Prop :=
  places a = places a' /\
  forall k, In k (seen_names a) <-> In k (seen_names a').

Definition same_flow (r r' : exn flow) : Prop :=
  match r, r' with
  | Ret (Next b), Ret (Next b') => same_seen b b'
  | Ret (Break b), Ret (Break b') => same_seen b b'
  | Raise e, Raise e' => e = e'
  | _, _ => False
  end.

(** The ways a lookup of places fails with the exception [e]: the request
    does not get through, the status is not a success, the body does not
    parse, or the processing of the parsed body raises. *)
Definition places_failure (limit : Z) (r : response) (e : exc) : Prop :=
  (r = Unreachable /\ e = ConnectionError) \/
  (exists code, r = Status code /\ e = HTTPError code) \/
  (r = Malformed /\ e = JSONDecodeError) \/
  (exists data, r = Body data /\ parse_places limit data = Raise e).

(** ** The stages of the orchestrator *)

(** The two optional stages of [process_query], as they appear in it. *)
Definition weather_stage (loc : Location) (flag : bool)
  : io (option (option WeatherInfo)) :=
  (if flag then
     emit (Spinner Weather) ;;;
     w <~ get_weather loc ;;
     show_weather w ;;;
     io_ret (Some w)
   else io_ret None)%io.

Definition places_stage (loc : Location) (flag : bool)
  : io (option (list Place)) :=
  (if flag then
     emit (Spinner Places) ;;;
     ps <~ get_tourist_attractions loc 5 ;;
     show_places ps ;;;
     io_ret (Some ps)
   else io_ret None)%io.

(** ** Sample data *)

(** Paris, as the geocoder resolves it. *)
Definition sample_location : Location :=
  mkLocation "Paris" (S754_finite false 6254 (-7)) (S754_finite false 301 (-7))
             (JStr "Paris, France").

(** A forecast with a two-day series. *)
Definition sample_forecast : json :=
  JObj [ ("current", JObj [("temperature_2m", JInt 18); ("weather_code", JInt 3)]);
         ("daily", JObj [("precipitation_probability_max", JArr [JInt 40; JInt 5])]) ].

(** A feature as Overpass returns it: a node with its own coordinates. *)
Definition feature (name : string) (tags : list (string * json)) : json :=
  JObj [ ("type", JStr "node"); ("lat", JInt 48); ("lon", JInt 2);
         ("tags", JObj (("name", JStr name) :: tags)) ].

(** Three features, two of them under one name. *)
Definition sample_features : json :=
  JObj [ ("elements",
          JArr [ feature "Louvre" [("tourism", JStr "museum")];
                 feature "Louvre" [("tourism", JStr "attraction")];
                 feature "Colonne de Juillet" [("historic", JStr "historic_monument")] ]) ].

(** A feature without coordinates of any kind. *)
Definition unplaced : json :=
  JObj [ ("type", JStr "relation");
         ("tags", JObj [("name", JStr "Jardin des Plantes")]) ].

(** The match of the geocoder for Paris. *)
Definition sample_match : json :=
  JObj [ ("lat", JStr "48.8566"); ("lon", JStr "2.3522");
         ("display_name", JStr "Paris, France") ].

(** [float] on the values of the sample bodies: exact on [float], [bool] and
    [int] values, and on the two numeric strings of the sample geocoder
    body; every other string is taken as one that does not parse. *)
Definition sample_float (v : json) : exn spec_float :=
  match v with
  | JFloat f => Ret f
  | JBool b => Ret (if b then S754_finite false 1 0 else S754_zero false)
  | JInt 0 => Ret (S754_zero false)
  | JInt (Zpos m) => Ret (S754_finite false m 0)
  | JInt (Zneg m) => Ret (S754_finite true m 0)
  | JStr s =>
      if String.eqb s "48.8566" then Ret (loc_latitude sample_location)
      else if String.eqb s "2.3522" then Ret (loc_longitude sample_location)
      else Raise ValueError
  | _ => Raise TypeError
  end.

(** Providers that know Paris only, and whose forecast service is down. *)
Definition sample_env : providers :=
  fun r =>
    match r with
    | Geocode q => if String.eqb q "Paris" then Body (JArr [sample_match]) else Body (JArr [])
    | Forecast _ _ => Status 503
    | Overpass _ _ _ => Body sample_features
    end.

(** The same providers, except that they do not answer for other places. *)
Definition other_env : providers :=
  fun r =>
    match r with
    | Geocode q => if String.eqb q "Paris" then Body (JArr [sample_match]) else Unreachable
    | _ => sample_env r
    end.

(** ** The loop in stages *)

(** The loop with the state it ends in: [Break] when it left through
    [break], [Next] when it ran out of elements. *)
Fixpoint run (limit : Z) (elements : list json) (a : acc) : exn flow :=
  match elements with
  | [] => Ret (Next a)
  | element :: rest =>
      f <- visit limit a element ;;
      match f with
      | Next a' => run limit rest a'
      | Break a' => Ret (Break a')
      end
  end.

Definition flow_acc (f : flow) : acc :=
  match f with
  | Next a => a
  | Break a => a
  end.

(** The place a candidate stands for, with the key of its name: an object
    with coordinates, a truthy hashable name and a textual category. *)
Definition place_of (element : json) : option (key * Place) :=
  match element with
  | JObj fields =>
      match position fields, assoc "tags" fields with
      | Some (lat, lon), Some (JObj tags) =>
          match assoc "name" tags, category_tag tags with
          | Some name, JStr raw =>
              if truthy name then
                match py_hash name with
                | Ret k => Some (k, mkPlace name (normalize raw) lat lon)
                | Raise _ => None
                end
              else None
          | _, _ => None
          end
      | _, _ => None
      end
  | _ => None
  end.

(** A candidate on which an iteration cannot raise: an object that has
    coordinates or lacks them altogether, whose tags, if it has any, are an
    object, and whose name, if truthy, is hashable and comes with a textual
    category. *)
Definition well_formed (element : json) : bool :=
  match element with
  | JObj fields =>
      match position fields with
      | Some _ =>
          match assoc "tags" fields with
          | None => true
          | Some (JObj tags) =>
              match assoc "name" tags with
              | None => true
              | Some name =>
                  negb (truthy name)
                  || (match name with JArr _ | JObj _ => false | _ => true end
                      && match category_tag tags with JStr _ => true | _ => false end)
              end
          | Some _ => false
          end
      | None => lacks_coordinates element
      end
  | _ => false
  end.

(** Keep the first place of every key that is not in [seen]. *)
Fixpoint dedup (seen : list key) (named : list (key * Place)) : list Place :=
  match named with
  | [] => []
  | (k, p) :: rest =>
      if key_in k seen then dedup seen rest
      else p :: dedup (k :: seen) rest
  end.

(** The places of the candidates that stand for one, in their order. *)
Definition named_places (elements : list json) : list (key * Place) :=
  flat_map (fun element => match place_of element with
                           | Some kp => [kp]
                           | None => []
                           end) elements.


(** The [current] object of a forecast body, empty when the body has none. *)
Definition current_of (fields : list (string * json)) : list (string * json) :=
  match assoc "current" fields with
  | Some (JObj current) => current
  | _ => []
  end.

(** [d.get(k, 0)] on the items of a [dict]. *)
Definition get_or_zero (k : string) (fields : list (string * json)) : json :=
  match assoc k fields with
  | Some v => v
  | None => JInt 0
  end.

(** The exit of an iteration that ended in the state of [f], had the limit
    been [limit]: an iteration that appended a place compares the new
    length with the limit. *)
Definition retag (limit : Z) (a : acc) (f : flow) : flow :=
  let a' := flow_acc f in
  if Nat.eqb (List.length (places a')) (List.length (places a)) then Next a'
  else if Z.of_nat (List.length (places a')) >=? limit then Break a'
       else Next a'.


(** A forecast without a [daily] section. *)
Definition bare_forecast : json :=
  JObj [ ("current", JObj [("temperature_2m", JInt 18); ("weather_code", JInt 3)]) ].

(** A feature whose category tag is [null]. *)
Definition untyped_louvre : json :=
  JObj [ ("lat", JInt 48); ("lon", JInt 2);
         ("tags", JObj [("name", JStr "Louvre"); ("tourism", JNull)]) ].

(** ** The set of seen names, for any implementation of [set] *)

(** An implementation of Python's [set] as the loop uses it: [set()],
    [add] and [in], on the keys of hashable values.  How the elements are
    stored, and in which order, is the implementation's own business (in
    CPython it depends on the hash seed of the process); membership is
    what the laws fix. *)
Record seen_set : Type := mkSeenSet {
  carrier : Type;
  set_empty : carrier;
  set_add : key -> carrier -> carrier;
  set_mem : key -> carrier -> bool;
  mem_empty : forall k, set_mem k set_empty = false;
  mem_add : forall k k' s,
      set_mem k (set_add k' s) = if key_eq_dec k k' then true else set_mem k s
}.

(** The set as the model of the loop has it: a list, newest first. *)
Definition newest_first : seen_set.
Proof.
  refine (mkSeenSet (list key) [] (fun k s => k :: s) key_in _ _).
  - intros k. reflexivity.
  - intros k k' s. unfold key_in.
    destruct (key_eq_dec k k') as [-> | Hne].
    + destruct (in_dec key_eq_dec k' (k' :: s)) as [_ | Hout];
        [reflexivity | exfalso; apply Hout; left; reflexivity].
    + destruct (in_dec key_eq_dec k (k' :: s)) as [[Heq | Hin] | Hout];
        destruct (in_dec key_eq_dec k s) as [Hin' | Hout']; try reflexivity.
      * exfalso. apply Hne. symmetry. exact Heq.
      * exfalso. apply Hout'. exact Hin.
      * exfalso. apply Hout. right. exact Hin'.
Defined.

(** Another one: a list, oldest first. *)
Definition oldest_first : seen_set.
Proof.
  refine (mkSeenSet (list key) [] (fun k s => s ++ [k]) key_in _ _).
  - intros k. reflexivity.
  - intros k k' s. unfold key_in.
    destruct (key_eq_dec k k') as [-> | Hne].
    + destruct (in_dec key_eq_dec k' (s ++ [k'])) as [_ | Hout];
        [reflexivity | exfalso; apply Hout; apply in_or_app; right; left; reflexivity].
    + destruct (in_dec key_eq_dec k (s ++ [k'])) as [Hin | Hout];
        destruct (in_dec key_eq_dec k s) as [Hin' | Hout']; try reflexivity.
      * exfalso. apply in_app_or in Hin. destruct Hin as [Hin | [Heq | []]].
        -- apply Hout'. exact Hin.
        -- apply Hne. symmetry. exact Heq.
      * exfalso. apply Hout. apply in_or_app. left. exact Hin'.
Defined.

(** Lines 126-147 over the set [S]: the body of the loop on one element,
    from the places and the set so far to whether the loop breaks, the
    places and the set. *)
Definition visit_with (S : seen_set) (limit : Z)
    (ps : list Place) (seen : carrier S) (element : json)
  : exn (bool * list Place * carrier S) :=
  c <- coordinates element ;;
  match c with
  | None => Ret (false, ps, seen)
  | Some (lat, lon) =>
      tags <- py_get element "tags" (JObj []) ;;
      name <- py_get tags "name" (JStr "") ;;
      if negb (truthy name) then Ret (false, ps, seen)
      else
        k <- py_hash name ;;
        if set_mem S k seen then Ret (false, ps, seen)
        else
          historic <- py_get tags "historic" (JStr "attraction") ;;
          attraction_type <- py_get tags "tourism" historic ;;
          type <- py_replace_title attraction_type ;;
          let ps' := ps ++ [mkPlace name type lat lon] in
          Ret (Z.of_nat (List.length ps') >=? limit, ps', set_add S k seen)
  end.

Fixpoint for_each_with (S : seen_set) (limit : Z) (elements : list json)
    (ps : list Place) (seen : carrier S) : exn (list Place) :=
  match elements with
  | [] => Ret ps
  | element :: rest =>
      r <- visit_with S limit ps seen element ;;
      match r with
      | (true, ps', _) => Ret ps'
      | (false, ps', seen') => for_each_with S limit rest ps' seen'
      end
  end.

Definition parse_places_with (S : seen_set) (limit : Z) (data : json)
  : exn (list Place) :=
  elements <- py_get data "elements" (JArr []) ;;
  items <- py_iter elements ;;
  for_each_with S limit items [] (set_empty S).

Definition get_tourist_attractions_with (S : seen_set)
    (location : Location) (limit : Z) : io (list Place) :=
  try_except Places
    (Overpass (loc_latitude location) (loc_longitude location) (limit * 3))
    (parse_places_with S limit) (fun ps => ps) [].

(** [process_query] with the places looked up over the set [S]. *)
Definition process_query_with (S : seen_set) (py_float : json -> exn spec_float)
    (place_name : string) (get_weather_flag get_places_flag : bool)
  : io outcome :=
  (emit (Spinner Geocoding) ;;;
   location <~ get_coordinates py_float place_name ;;
   match location with
   | None =>
       emit (StErrorNotFound place_name) ;;;
       io_ret (mkOutcome None None None)
   | Some loc =>
       emit (StSuccess (loc_display_name loc)) ;;;
       weather <~ (if get_weather_flag then
                     emit (Spinner Weather) ;;;
                     w <~ get_weather loc ;;
                     show_weather w ;;;
                     io_ret (Some w)
                   else io_ret None) ;;
       found <~ (if get_places_flag then
                   emit (Spinner Places) ;;;
                   ps <~ get_tourist_attractions_with S loc 5 ;;
                   show_places ps ;;;
                   io_ret (Some ps)
                 else io_ret None) ;;
       io_ret (mkOutcome (Some loc) weather found)
   end)%io.

(** * Properties *)

(** ** The exception monad *)

Lemma bind_Ret_inv {A B : Type} (m : exn A) (k : A -> exn B) (b : B) :
  bind m k = Ret b -> exists a, m = Ret a /\ k a = Ret b.
Proof.
  destruct m as [a | e]; simpl; intros H.
  - exists a. split; [reflexivity | exact H].
  - discriminate H.
Qed.

Tactic Notation "bind_inv" hyp(H) "as" ident(x) ident(Hx) :=
  apply bind_Ret_inv in H; destruct H as (x & Hx & H).

Tactic Notation "bind_inv" hyp(H) :=
  let x := fresh "x" in
  let Hx := fresh "Hx" in
  bind_inv H as x Hx.

(** ** One iteration *)

Lemma coordinates_position (element : json) (c : json * json) :
  coordinates element = Ret (Some c) ->
  exists fields, element = JObj fields /\ position fields = Some c.
Proof.
  unfold coordinates, position.
  destruct element as [ | b | z | f | s | items | fields]; simpl; try discriminate.
  - destruct (substring_of "lat" s); simpl;
      [destruct (substring_of "lon" s); simpl | ];
      try discriminate;
      destruct (substring_of "center" s); simpl; discriminate.
  - destruct (existsb (is_str "lat") items); simpl;
      [destruct (existsb (is_str "lon") items); simpl | ];
      try discriminate;
      destruct (existsb (is_str "center") items); simpl; discriminate.
  - intros H. exists fields. split; [reflexivity | ].
    destruct (assoc "lat" fields) as [lat | ]; simpl in *;
      [destruct (assoc "lon" fields) as [lon | ]; simpl in * | ];
      try (injection H as <-; reflexivity);
      (destruct (assoc "center" fields) as [center | ]; simpl in *;
       [ | discriminate]);
      (destruct center as [ | b | z | f | s | items | cf]; simpl in *;
       try discriminate);
      (destruct (assoc "lat" cf) as [clat | ]; simpl in *; [ | discriminate]);
      (destruct (assoc "lon" cf) as [clon | ]; simpl in *; [ | discriminate]);
      injection H as <-; reflexivity.
Qed.

(** A successful iteration either leaves the accumulator alone or appends one
    place built from the element, whose key was not seen before. *)
Lemma visit_spec (limit : Z) (a : acc) (element : json) (f : flow) :
  visit limit a element = Ret f ->
  f = Next a \/
  exists p k,
    built_from p element /\
    py_hash (place_name p) = Ret k /\
    ~ In k (seen_names a) /\
    let a' := mkAcc (places a ++ [p]) (k :: seen_names a) in
    f = (if Z.of_nat (List.length (places a')) >=? limit then Break a' else Next a').
Proof.
  unfold visit. intros H.
  bind_inv H as c Hc. destruct c as [[lat lon] | ].
  2:{ left. injection H as <-. reflexivity. }
  apply coordinates_position in Hc. destruct Hc as (fields & -> & Hpos).
  bind_inv H as tags Htags.
  bind_inv H as name Hname.
  destruct (truthy name) eqn:Htruthy; simpl in H.
  2:{ left. injection H as <-. reflexivity. }
  bind_inv H as k Hk.
  unfold key_in in H.
  destruct (in_dec key_eq_dec k (seen_names a)) as [Hin | Hnotin].
  { left. injection H as <-. reflexivity. }
  bind_inv H as historic Hhist.
  bind_inv H as attraction_type Htype.
  bind_inv H as type Hnorm.
  right. exists (mkPlace name type lat lon), k.
  split; [ | split; [exact Hk | split; [exact Hnotin | ]]].
  - destruct tags as [ | b | z | f0 | s | items | tf]; simpl in Hname; try discriminate.
    destruct attraction_type as [ | b | z | f0 | raw | items | af];
      simpl in Hnorm; try discriminate.
    exists fields, tf, raw. simpl.
    simpl in Htags.
    destruct (assoc "tags" fields) as [t | ] eqn:Ht.
    2:{ injection Htags as <-.
        simpl in Hname. injection Hname as <-. discriminate Htruthy. }
    injection Htags as ->.
    injection Hname as Hname.
    destruct (assoc "name" tf) as [n | ] eqn:Hn.
    2:{ subst name. discriminate Htruthy. }
    subst n.
    repeat split; try assumption; try reflexivity.
    + unfold category_tag. simpl in Hhist, Htype.
      injection Hhist as <-. injection Htype as <-.
      destruct (assoc "tourism" tf); [reflexivity | ].
      destruct (assoc "historic" tf); reflexivity.
    + injection Hnorm as <-. reflexivity.
  - simpl. simpl in H.
    destruct (Z.of_nat (List.length (places a ++ [mkPlace name type lat lon])) >=? limit);
      injection H as <-; reflexivity.
Qed.

(** ** The loop *)

Lemma consistent_init : consistent (mkAcc [] []).
Proof.
  split; simpl; constructor.
Qed.

Lemma consistent_step (a : acc) (p : Place) (k : key) :
  consistent a -> hashes_to p k -> ~ In k (seen_names a) ->
  consistent (mkAcc (places a ++ [p]) (k :: seen_names a)).
Proof.
  intros [Hkeys Honce] Hp Hk. split; simpl.
  - apply Forall2_app; [exact Hkeys | ]. constructor; [exact Hp | constructor].
  - constructor; assumption.
Qed.

(** The returned list extends the places accumulated so far by places picked
    from the remaining elements, in order. *)
Lemma for_each_picks (limit : Z) (elements : list json) :
  forall (a : acc) (ps : list Place),
    for_each limit elements a = Ret ps ->
    exists new, ps = places a ++ new /\ picks new elements.
Proof.
  induction elements as [ | element rest IH]; intros a ps H; simpl in H.
  - injection H as <-. exists []. rewrite app_nil_r. split; [reflexivity | constructor].
  - bind_inv H as f Hvisit. apply visit_spec in Hvisit.
    destruct Hvisit as [-> | (p & k & Hbuilt & _ & _ & Hf)].
    + apply IH in H. destruct H as (new & -> & Hpicks).
      exists new. split; [reflexivity | constructor; exact Hpicks].
    + simpl in Hf. subst f.
      destruct (Z.of_nat (List.length (places a ++ [p])) >=? limit).
      * injection H as <-. simpl. exists [p].
        split; [reflexivity | ]. constructor; [exact Hbuilt | constructor].
      * apply IH in H. simpl in H. destruct H as (new & -> & Hpicks).
        exists (p :: new). rewrite <- app_assoc. simpl.
        split; [reflexivity | constructor; assumption].
Qed.

(** The names of the returned list hash to pairwise distinct keys. *)
Lemma for_each_keys (limit : Z) (elements : list json) :
  forall (a : acc) (ps : list Place),
    for_each limit elements a = Ret ps ->
    consistent a ->
    exists ks, Forall2 hashes_to ps ks /\ NoDup ks.
Proof.
  induction elements as [ | element rest IH]; intros a ps H Ha; simpl in H.
  - injection H as <-. exists (rev (seen_names a)).
    destruct Ha as [Hkeys Honce]. split; [exact Hkeys | ].
    apply NoDup_rev. exact Honce.
  - bind_inv H as f Hvisit. apply visit_spec in Hvisit.
    destruct Hvisit as [-> | (p & k & _ & Hk & Hnew & Hf)].
    + eapply IH; eassumption.
    + simpl in Hf. subst f.
      pose proof (consistent_step a p k Ha Hk Hnew) as Ha'.
      destruct (Z.of_nat (List.length (places a ++ [p])) >=? limit).
      * injection H as <-. simpl. exists (rev (k :: seen_names a)).
        destruct Ha' as [Hkeys Honce]. split; [exact Hkeys | ].
        apply NoDup_rev. exact Honce.
      * eapply IH; eassumption.
Qed.

Lemma distinct_keys_distinct_names (ps : list Place) :
  forall ks, Forall2 hashes_to ps ks -> NoDup ks -> NoDup (map place_name ps).
Proof.
  induction ps as [ | p ps IH]; intros ks Hks Hnd.
  - constructor.
  - inversion Hks as [ | p' k ps' ks' Hp Hrest]; subst.
    inversion Hnd as [ | k' ks'' Hk Hnd']; subst.
    simpl. constructor; [ | eapply IH; eassumption].
    intros Hin. apply Hk.
    apply in_map_iff in Hin. destruct Hin as (q & Hq & Hqin).
    clear - Hrest Hq Hqin Hp.
    induction Hrest as [ | q' k' ps ks' Hq' Hrest IH'].
    + destruct Hqin.
    + destruct Hqin as [-> | Hqin].
      * left. unfold hashes_to in *. rewrite Hq in Hq'. rewrite Hp in Hq'.
        injection Hq' as ->. reflexivity.
      * right. apply IH'. exact Hqin.
Qed.

(** The length of the returned list: the loop stops at the first length that
    reaches [limit], which for a [limit] below one is the length one. *)
Lemma for_each_length (limit : Z) (elements : list json) :
  forall (a : acc) (ps : list Place),
    for_each limit elements a = Ret ps ->
    Z.of_nat (List.length ps) <= Z.max limit (Z.of_nat (List.length (places a)) + 1).
Proof.
  induction elements as [ | element rest IH]; intros a ps H; simpl in H.
  - injection H as <-. lia.
  - bind_inv H as f Hvisit. apply visit_spec in Hvisit.
    destruct Hvisit as [-> | (p & k & _ & _ & _ & Hf)].
    + apply IH. exact H.
    + simpl in Hf. subst f.
      destruct (Z.of_nat (List.length (places a ++ [p])) >=? limit) eqn:Hstop.
      * injection H as <-. simpl. rewrite length_app. simpl. lia.
      * apply IH in H. simpl in H.
        rewrite Z.geb_leb in Hstop. apply Z.leb_gt in Hstop.
        rewrite length_app in *. simpl in *. lia.
Qed.

Lemma key_in_members (k : key) (seen seen' : list key) :
  (forall k, In k seen <-> In k seen') -> key_in k seen = key_in k seen'.
Proof.
  intros H. unfold key_in.
  destruct (in_dec key_eq_dec k seen) as [Hin | Hout];
    destruct (in_dec key_eq_dec k seen') as [Hin' | Hout']; try reflexivity.
  - exfalso. apply Hout'. apply H. exact Hin.
  - exfalso. apply Hout. apply H. exact Hin'.
Qed.

Lemma visit_same_seen (limit : Z) (a a' : acc) (element : json) :
  same_seen a a' -> same_flow (visit limit a element) (visit limit a' element).
Proof.
  intros [Hplaces Hseen]. unfold visit.
  destruct (coordinates element) as [[[lat lon] | ] | e]; cbn [bind];
    [ | split; assumption | reflexivity].
  destruct (py_get element "tags" (JObj [])) as [tags | e]; cbn [bind];
    [ | reflexivity].
  destruct (py_get tags "name" (JStr "")) as [name | e]; cbn [bind];
    [ | reflexivity].
  destruct (truthy name); cbn [negb]; [ | split; assumption].
  destruct (py_hash name) as [k | e]; cbn [bind]; [ | reflexivity].
  rewrite (key_in_members k _ _ Hseen).
  destruct (key_in k (seen_names a')); [split; assumption | ].
  destruct (py_get tags "historic" (JStr "attraction")) as [historic | e];
    cbn [bind]; [ | reflexivity].
  destruct (py_get tags "tourism" historic) as [attraction_type | e];
    cbn [bind]; [ | reflexivity].
  destruct (py_replace_title attraction_type) as [type | e]; cbn [bind];
    [ | reflexivity].
  cbn [places]. rewrite Hplaces.
  destruct (Z.of_nat _ >=? limit); (split; cbn [places seen_names];
    [reflexivity | intros k'; simpl; rewrite (Hseen k'); reflexivity]).
Qed.

(** The loop reads [seen_names] through membership only: the order in which
    the set holds its elements does not show in the result. *)
Lemma for_each_same_seen (limit : Z) (elements : list json) :
  forall a a', same_seen a a' ->
               for_each limit elements a = for_each limit elements a'.
Proof.
  induction elements as [ | element rest IH]; intros a a' Hsame; simpl.
  - destruct Hsame as [-> _]. reflexivity.
  - pose proof (visit_same_seen limit a a' element Hsame) as Hflow.
    unfold same_flow in Hflow.
    destruct (visit limit a element) as [[b | b] | e];
      destruct (visit limit a' element) as [[b' | b'] | e'];
      try contradiction; cbn [bind].
    + apply IH. exact Hflow.
    + destruct Hflow as [-> _]. reflexivity.
    + rewrite Hflow. reflexivity.
Qed.

(** ** The adapters as functions of the response *)

Lemma try_except_eq {A B : Type} (s : stage) (r : request)
    (body : json -> exn A) (ok : A -> B) (fallback : B) (env : providers) :
  try_except s r body ok fallback env =
  match bind (body_of (env r)) body with
  | Ret a => (ok a, [Sent r])
  | Raise e => (fallback, [Sent r; StError s e])
  end.
Proof.
  unfold try_except, io_bind, send, emit, io_ret.
  destruct (bind (body_of (env r)) body); reflexivity.
Qed.

Lemma get_weather_Some (location : Location) (env : providers) (w : WeatherInfo) :
  fst (get_weather location env) = Some w ->
  exists data,
    env (forecast_of location) = Body data /\ parse_weather data = Ret w.
Proof.
  unfold get_weather. rewrite try_except_eq. fold (forecast_of location).
  destruct (env (forecast_of location)) as [ | code | | data]; simpl;
    try discriminate.
  intros H. exists data. split; [reflexivity | ].
  destruct (parse_weather data) as [w' | e]; simpl in H; [ | discriminate].
  injection H as <-. reflexivity.
Qed.

(** ** Weather descriptions *)

Lemma table_get_None (code : Z) (table : list (Z * string)) :
  ~ In code (map fst table) -> table_get code table = None.
Proof.
  induction table as [ | [c phrase] rest IH]; simpl; intros Hnotin.
  - reflexivity.
  - destruct (Z.eqb_spec code c) as [-> | Hne].
    + exfalso. apply Hnotin. left. reflexivity.
    + apply IH. intros Hin. apply Hnotin. right. exact Hin.
Qed.

(** C3.  The description of a weather code is defined for every integer
    code; code [0] is "clear sky", code [99] is "unknown weather", and so is
    every code that the table does not list. *)
Theorem weather_description_total :
  (forall code : Z, exists phrase, _get_weather_description (JInt code) = Ret phrase) /\
  _get_weather_description (JInt 0) = Ret "clear sky" /\
  _get_weather_description (JInt 99) = Ret "unknown weather" /\
  (forall code : Z,
      ~ In code (map fst weather_codes) ->
      _get_weather_description (JInt code) = Ret "unknown weather").
Proof.
  split; [ | split; [reflexivity | split; [reflexivity | ]]].
  - intros code. unfold _get_weather_description. simpl.
    eexists. reflexivity.
  - intros code Hnotin. unfold _get_weather_description. cbn [py_hash bind].
    rewrite (table_get_None code weather_codes Hnotin). reflexivity.
Qed.

Lemma weather_description_total_witness :
  _get_weather_description (JInt 7) = Ret "unknown weather".
Proof.
  apply (proj2 (proj2 (proj2 weather_description_total)) 7).
  simpl. intros H.
  repeat (destruct H as [H | H]; [discriminate H | ]).
  exact H.
Defined.

(** ** Rain chance *)

Lemma parse_weather_rain_chance (data : json) (w : WeatherInfo) :
  parse_weather data = Ret w ->
  match daily_series data with
  | Some rain_probs =>
      if truthy rain_probs then py_first rain_probs = Ret (rain_chance w)
      else rain_chance w = JInt 0
  | None => rain_chance w = JInt 0
  end.
Proof.
  unfold parse_weather. intros H.
  bind_inv H as current Hcurrent.
  bind_inv H as daily Hdaily.
  bind_inv H as present Hpresent.
  bind_inv H as rc Hrc.
  bind_inv H. bind_inv H. bind_inv H.
  injection H as <-. simpl.
  destruct data as [ | b | z | f | s | items | fields]; simpl in Hdaily;
    try discriminate.
  injection Hdaily as Hdaily. unfold daily_series.
  destruct (assoc "daily" fields) as [d | ].
  - subst d.
    destruct daily as [ | b | z | f | s | items | df]; simpl in Hpresent;
      try discriminate; injection Hpresent as <-.
    + destruct (substring_of _ s); simpl in Hrc; [discriminate | ].
      injection Hrc as <-. reflexivity.
    + destruct (existsb _ items); simpl in Hrc; [discriminate | ].
      injection Hrc as <-. reflexivity.
    + cbn [py_item] in Hrc.
      destruct (assoc "precipitation_probability_max" df) as [rain_probs | ];
        cbn [bind] in Hrc.
      * destruct (truthy rain_probs) eqn:Htruthy.
        -- bind_inv Hrc as n Hn. destruct (n >? 0) eqn:Hpos; [exact Hrc | ].
           exfalso.
           destruct rain_probs as [ | b | z | f | s | items | rf];
             simpl in Hn; try discriminate; injection Hn as <-.
           ++ destruct s; [discriminate Htruthy | discriminate Hpos].
           ++ destruct items; [discriminate Htruthy | discriminate Hpos].
           ++ destruct rf; [discriminate Htruthy | discriminate Hpos].
        -- injection Hrc as <-. reflexivity.
      * injection Hrc as <-. reflexivity.
  - subst daily. simpl in Hpresent. injection Hpresent as <-.
    simpl in Hrc. injection Hrc as <-. reflexivity.
Qed.

(** On a body of that shape the adapter returns a [WeatherInfo]. *)
Lemma parse_weather_returns (data : json) :
  plain_forecast data = true -> exists w, parse_weather data = Ret w.
Proof.
  destruct data as [ | b | z | f | s | items | fields]; simpl; try discriminate.
  intros H. apply andb_true_iff in H. destruct H as [Hcurrent Hdaily].
  unfold parse_weather. cbn [py_get bind].
  assert (Hrain : exists rc,
    (present <- py_contains "precipitation_probability_max"
                  match assoc "daily" fields with Some x => x | None => JObj [] end ;;
     if present then
       rain_probs <- py_item match assoc "daily" fields with Some x => x | None => JObj [] end
                             "precipitation_probability_max" ;;
       if truthy rain_probs then
         n <- py_len rain_probs ;;
         if n >? 0 then py_first rain_probs else Ret (JInt 0)
       else Ret (JInt 0)
     else Ret (JInt 0)) = Ret rc).
  { destruct (assoc "daily" fields) as [d | ]; [ | eexists; reflexivity].
    destruct d as [ | b | z | f | s | items | df]; try discriminate.
    cbn [py_contains py_item bind].
    destruct (assoc "precipitation_probability_max" df) as [rain_probs | ];
      [ | eexists; reflexivity].
    destruct rain_probs as [ | b | z | f | s | items | rf]; try discriminate;
      cbn [bind truthy]; [eexists; reflexivity | ].
    destruct items; eexists; reflexivity. }
  destruct Hrain as (rc & Hrain).
  destruct (assoc "current" fields) as [c | ].
  - destruct c as [ | b | z | f | s | items | cf]; try discriminate.
    cbn [py_get bind].
    destruct (py_contains _ _) as [present | e]; [ | discriminate Hrain].
    cbn [bind] in *. rewrite Hrain. cbn [bind].
    destruct (assoc "weather_code" cf) as [code | ]; [ | eexists; reflexivity].
    destruct code; try discriminate; eexists; reflexivity.
  - destruct (py_contains _ _) as [present | e]; [ | discriminate Hrain].
    cbn [bind] in *. rewrite Hrain. eexists. reflexivity.
Qed.

Lemma plain_forecast_series (data : json) :
  plain_forecast data = true ->
  match daily_series data with
  | None | Some JNull | Some (JArr _) => True
  | Some _ => False
  end.
Proof.
  destruct data as [ | b | z | f | s | items | fields]; simpl; try discriminate.
  intros H. apply andb_true_iff in H. destruct H as [_ Hdaily].
  destruct (assoc "daily" fields) as [d | ]; [ | exact I].
  destruct d as [ | b | z | f | s | items | df]; try exact I.
  destruct (assoc "precipitation_probability_max" df) as [series | ]; [ | exact I].
  destruct series; try discriminate Hdaily; exact I.
Qed.

(** C4.  On every forecast body, whenever the weather adapter returns a
    [WeatherInfo], its [rain_chance] is the first element of the daily
    precipitation series if the series is there and not empty, and [0] if
    the series is missing or empty; and on a body of the documented shape
    the adapter does return a [WeatherInfo], with that first element, or
    with [0] when there is none. *)
Theorem rain_chance_first_or_zero
    (location : Location) (env : providers) (data : json) :
  env (forecast_of location) = Body data ->
  (forall w,
      fst (get_weather location env) = Some w ->
      (forall first rest,
          daily_series data = Some (JArr (first :: rest)) -> rain_chance w = first) /\
      (daily_series data = Some (JArr []) \/ daily_series data = None ->
       rain_chance w = JInt 0)) /\
  (plain_forecast data = true ->
   exists w,
     get_weather location env = (Some w, [Sent (forecast_of location)]) /\
     rain_chance w = match daily_series data with
                     | Some (JArr (first :: _)) => first
                     | _ => JInt 0
                     end).
Proof.
  intros Henv. split.
  - intros w H. apply get_weather_Some in H. destruct H as (data' & Henv' & Hparse).
    rewrite Henv in Henv'. injection Henv' as <-.
    apply parse_weather_rain_chance in Hparse.
    split.
    + intros first rest Hseries. rewrite Hseries in Hparse. simpl in Hparse.
      injection Hparse as <-. reflexivity.
    + intros [Hseries | Hseries]; rewrite Hseries in Hparse; exact Hparse.
  - intros Hplain.
    destruct (parse_weather_returns data Hplain) as (w & Hparse).
    exists w. split.
    + unfold get_weather. rewrite try_except_eq. fold (forecast_of location).
      rewrite Henv. cbn [body_of bind]. rewrite Hparse. reflexivity.
    + pose proof (plain_forecast_series data Hplain) as Hshape.
      apply parse_weather_rain_chance in Hparse.
      destruct (daily_series data) as [series | ]; [ | exact Hparse].
      destruct series as [ | b | z | f | s | items | df]; try contradiction.
      * exact Hparse.
      * destruct items as [ | first rest]; simpl in Hparse; [exact Hparse | ].
        injection Hparse as <-. reflexivity.
Qed.

Lemma rain_chance_first_or_zero_witness :
  (exists w,
      get_weather sample_location (fun _ => Body sample_forecast) =
      (Some w, [Sent (forecast_of sample_location)]) /\
      rain_chance w = JInt 40) /\
  (exists w,
      get_weather sample_location (fun _ => Body bare_forecast) =
      (Some w, [Sent (forecast_of sample_location)]) /\
      rain_chance w = JInt 0).
Proof.
  split.
  - apply (proj2 (rain_chance_first_or_zero sample_location
                    (fun _ => Body sample_forecast) sample_forecast eq_refl)).
    reflexivity.
  - apply (proj2 (rain_chance_first_or_zero sample_location
                    (fun _ => Body bare_forecast) bare_forecast eq_refl)).
    reflexivity.
Defined.

(** ** Points of interest *)

(** The adapter either returns what the loop returns on the offered
    candidates, with no diagnostic, or the empty list with a diagnostic. *)
Lemma get_tourist_attractions_cases
    (location : Location) (limit : Z) (env : providers) :
  (exists elements ps,
      offered env location limit elements /\
      for_each limit elements init = Ret ps /\
      get_tourist_attractions location limit env =
      (ps, [Sent (overpass_of location limit)])) \/
  (exists e,
      bind (body_of (env (overpass_of location limit))) (parse_places limit) = Raise e /\
      get_tourist_attractions location limit env =
      ([], [Sent (overpass_of location limit); StError Places e])).
Proof.
  unfold get_tourist_attractions. rewrite try_except_eq.
  fold (overpass_of location limit).
  destruct (bind (body_of (env (overpass_of location limit))) (parse_places limit))
    as [ps | e] eqn:Hrun.
  - left. bind_inv Hrun as data Hbody.
    unfold parse_places in Hrun.
    bind_inv Hrun as elements Helements.
    bind_inv Hrun as items Hitems.
    exists items, ps. split; [ | split; [exact Hrun | reflexivity]].
    exists data. split.
    + destruct (env (overpass_of location limit)); simpl in Hbody; try discriminate.
      injection Hbody as <-. reflexivity.
    + unfold candidates. rewrite Helements. exact Hitems.
  - right. exists e. split; reflexivity.
Qed.

Lemma picks_In (ps : list Place) (elements : list json) :
  picks ps elements ->
  forall p, In p ps -> exists element, In element elements /\ built_from p element.
Proof.
  induction 1 as [elements | ps element elements _ IH | q ps element elements Hq _ IH];
    intros p Hin.
  - destruct Hin.
  - destruct (IH p Hin) as (e & He & Hb). exists e. split; [right | ]; assumption.
  - destruct Hin as [<- | Hin].
    + exists element. split; [left; reflexivity | exact Hq].
    + destruct (IH p Hin) as (e & He & Hb). exists e. split; [right | ]; assumption.
Qed.

(** Every returned place is built from one of the offered candidates. *)
Lemma returned_place_built
    (location : Location) (limit : Z) (env : providers) (p : Place) :
  In p (fst (get_tourist_attractions location limit env)) ->
  exists elements element,
    offered env location limit elements /\
    In element elements /\ built_from p element.
Proof.
  destruct (get_tourist_attractions_cases location limit env)
    as [(elements & ps & Hoffered & Hloop & ->) | (e & _ & ->)]; simpl; intros Hin.
  - apply for_each_picks in Hloop. destruct Hloop as (new & -> & Hpicks).
    simpl in Hin. destruct (picks_In _ _ Hpicks p Hin) as (element & He & Hb).
    exists elements, element. repeat split; assumption.
  - destruct Hin.
Qed.

(** What holds of the returned list for every response and every limit: it
    is picked from the offered candidates in their order, its names are
    pairwise distinct, and it has at most [limit] entries, or one entry when
    [limit] is below one. *)
Lemma get_tourist_attractions_unique_ordered
    (location : Location) (limit : Z) (env : providers) :
  let ps := fst (get_tourist_attractions location limit env) in
  NoDup (map place_name ps) /\
  Z.of_nat (List.length ps) <= Z.max limit 1 /\
  (ps = [] \/ exists elements, offered env location limit elements /\ picks ps elements).
Proof.
  destruct (get_tourist_attractions_cases location limit env)
    as [(elements & ps & Hoffered & Hloop & ->) | (e & _ & ->)]; simpl.
  - split; [ | split].
    + destruct (for_each_keys _ _ _ _ Hloop consistent_init) as (ks & Hks & Hnd).
      eapply distinct_keys_distinct_names; eassumption.
    + apply for_each_length in Hloop. simpl in Hloop. exact Hloop.
    + right. exists elements. split; [exact Hoffered | ].
      apply for_each_picks in Hloop. destruct Hloop as (new & -> & Hpicks).
      exact Hpicks.
  - split; [constructor | split; [lia | left; reflexivity]].
Qed.

(** C2.  With [limit = 0] the adapter returns one place: the length is
    compared with the limit only after a place has been appended. *)
Theorem get_tourist_attractions_limit_zero :
  get_tourist_attractions sample_location 0 (fun _ => Body sample_features) =
  ([mkPlace (JStr "Louvre") "Museum" (JInt 48) (JInt 2)],
   [Sent (overpass_of sample_location 0)]) /\
  ~ (Z.of_nat (List.length
       (fst (get_tourist_attractions sample_location 0
               (fun _ => Body sample_features)))) <= 0).
Proof.
  split.
  - reflexivity.
  - vm_compute. intros H. apply H. reflexivity.
Qed.





Lemma lacks_coordinates_continue (element : json) :
  lacks_coordinates element = true -> coordinates element = Ret None.
Proof.
  destruct element as [ | b | z | f | s | items | fields]; simpl; try discriminate.
  unfold coordinates. cbn [py_contains bind].
  destruct (assoc "lat" fields); [destruct (assoc "lon" fields) | ];
    destruct (assoc "center" fields); simpl; try discriminate; reflexivity.
Qed.

Lemma lacks_coordinates_position (fields : list (string * json)) :
  lacks_coordinates (JObj fields) = true -> position fields = None.
Proof.
  simpl. unfold position.
  destruct (assoc "lat" fields); [destruct (assoc "lon" fields) | ];
    destruct (assoc "center" fields); simpl; try discriminate; reflexivity.
Qed.

(** The loop passes over a candidate without coordinates as if it were not
    in the list. *)
Lemma for_each_without (limit : Z) (pre : list json) (element : json) (post : list json) :
  lacks_coordinates element = true ->
  forall a, for_each limit (pre ++ element :: post) a = for_each limit (pre ++ post) a.
Proof.
  intros Hlacks. induction pre as [ | e pre IH]; intros a; simpl.
  - unfold visit. rewrite (lacks_coordinates_continue _ Hlacks). reflexivity.
  - destruct (visit limit a e) as [[a' | a'] | err]; simpl; [apply IH | | ]; reflexivity.
Qed.

(** C6.  A candidate with neither a direct [lat]/[lon] pair nor a [center]
    is excluded: the adapter returns, and reports, the same as on the
    response without that candidate, and no returned place is built from
    it. *)
Theorem no_coordinates_excluded
    (location : Location) (limit : Z) (env env' : providers)
    (fields fields' : list (string * json))
    (pre : list json) (element : json) (post : list json) :
  lacks_coordinates element = true ->
  env (overpass_of location limit) = Body (JObj fields) ->
  assoc "elements" fields = Some (JArr (pre ++ element :: post)) ->
  env' (overpass_of location limit) = Body (JObj fields') ->
  assoc "elements" fields' = Some (JArr (pre ++ post)) ->
  get_tourist_attractions location limit env =
  get_tourist_attractions location limit env' /\
  forall p, In p (fst (get_tourist_attractions location limit env)) ->
            ~ built_from p element.
Proof.
  intros Hlacks Henv Helements Henv' Helements'. split.
  - unfold get_tourist_attractions. rewrite !try_except_eq.
    fold (overpass_of location limit). rewrite Henv, Henv'.
    unfold parse_places. cbn [body_of bind py_get].
    rewrite Helements, Helements'. cbn [py_iter bind].
    rewrite (for_each_without limit pre element post Hlacks). reflexivity.
  - intros p _ (fs & tags & raw & -> & Hpos & _).
    rewrite (lacks_coordinates_position fs Hlacks) in Hpos. discriminate Hpos.
Qed.

Lemma no_coordinates_excluded_witness :
  get_tourist_attractions sample_location 5
    (fun _ => Body (JObj [("elements", JArr ([feature "Louvre" []] ++ unplaced :: []))])) =
  get_tourist_attractions sample_location 5
    (fun _ => Body (JObj [("elements", JArr ([feature "Louvre" []] ++ []))])) /\
  forall p,
    In p (fst (get_tourist_attractions sample_location 5
                 (fun _ => Body (JObj [("elements",
                     JArr ([feature "Louvre" []] ++ unplaced :: []))])))) ->
    ~ built_from p unplaced.
Proof.
  apply (no_coordinates_excluded sample_location 5 _ _
           [("elements", JArr ([feature "Louvre" []] ++ unplaced :: []))]
           [("elements", JArr ([feature "Louvre" []] ++ []))]
           [feature "Louvre" []] unplaced []); reflexivity.
Defined.

Lemma visit_nameless (limit : Z) (a : acc)
    (fields tags : list (string * json)) :
  assoc "tags" fields = Some (JObj tags) ->
  assoc "name" tags = Some (JStr "") \/ assoc "name" tags = None ->
  visit limit a (JObj fields) = skip a (JObj fields).
Proof.
  intros Htags Hname. unfold visit, skip.
  destruct (coordinates (JObj fields)) as [[[lat lon] | ] | e]; cbn [bind];
    try reflexivity.
  cbn [py_get]. rewrite Htags. cbn [bind py_get].
  destruct Hname as [-> | ->]; reflexivity.
Qed.

(** C10.  A candidate whose [name] tag is the empty string is skipped the
    way a candidate without a [name] tag is: in both cases the iteration
    leaves the accumulator as it is, and no returned place has the empty
    name. *)
Theorem empty_name_skipped
    (location : Location) (limit : Z) (env : providers) (a : acc)
    (fields fields' tags tags' : list (string * json)) :
  assoc "tags" fields = Some (JObj tags) ->
  assoc "name" tags = Some (JStr "") ->
  assoc "tags" fields' = Some (JObj tags') ->
  assoc "name" tags' = None ->
  visit limit a (JObj fields) = skip a (JObj fields) /\
  visit limit a (JObj fields') = skip a (JObj fields') /\
  forall p, In p (fst (get_tourist_attractions location limit env)) ->
            place_name p <> JStr "".
Proof.
  intros Htags Hname Htags' Hname'.
  split; [ | split].
  - apply (visit_nameless limit a fields tags Htags). left. exact Hname.
  - apply (visit_nameless limit a fields' tags' Htags'). right. exact Hname'.
  - intros p Hin Hempty.
    destruct (returned_place_built _ _ _ _ Hin)
      as (elements & element & _ & _ & Hbuilt).
    destruct Hbuilt as (fs & ts & raw & _ & _ & _ & _ & Htruthy & _).
    rewrite Hempty in Htruthy. discriminate Htruthy.
Qed.

Lemma empty_name_skipped_witness :
  visit 5 init (feature "" []) = skip init (feature "" []) /\
  visit 5 init (JObj [("lat", JInt 48); ("lon", JInt 2); ("tags", JObj [])]) =
  skip init (JObj [("lat", JInt 48); ("lon", JInt 2); ("tags", JObj [])]) /\
  forall p,
    In p (fst (get_tourist_attractions sample_location 5
                 (fun _ => Body sample_features))) ->
    place_name p <> JStr "".
Proof.
  apply (empty_name_skipped sample_location 5 (fun _ => Body sample_features) init
           [("type", JStr "node"); ("lat", JInt 48); ("lon", JInt 2);
            ("tags", JObj [("name", JStr "")])]
           [("lat", JInt 48); ("lon", JInt 2); ("tags", JObj [])]
           [("name", JStr "")] []); reflexivity.
Defined.

(** C8.  A failed lookup of places returns the empty list, which is what a
    successful lookup without any candidate returns; the two differ in the
    diagnostic only, which the failed lookup emits and the successful one
    does not. *)
Theorem failure_returns_empty_list
    (location : Location) (limit : Z) (failing quiet : providers)
    (e : exc) (data : json) :
  places_failure limit (failing (overpass_of location limit)) e ->
  quiet (overpass_of location limit) = Body data ->
  candidates data = Ret [] ->
  fst (get_tourist_attractions location limit failing) = [] /\
  fst (get_tourist_attractions location limit quiet) = [] /\
  snd (get_tourist_attractions location limit failing) =
    [Sent (overpass_of location limit); StError Places e] /\
  snd (get_tourist_attractions location limit quiet) =
    [Sent (overpass_of location limit)].
Proof.
  intros Hfail Hquiet Hnone.
  assert (Hf : get_tourist_attractions location limit failing =
               ([], [Sent (overpass_of location limit); StError Places e])).
  { unfold get_tourist_attractions. rewrite try_except_eq.
    fold (overpass_of location limit).
    destruct Hfail as [[-> ->] | [(code & -> & ->) | [[-> ->] | (d & -> & Hd)]]];
      cbn [body_of bind]; try reflexivity.
    rewrite Hd. reflexivity. }
  assert (Hq : get_tourist_attractions location limit quiet =
               ([], [Sent (overpass_of location limit)])).
  { unfold get_tourist_attractions. rewrite try_except_eq.
    fold (overpass_of location limit). rewrite Hquiet.
    cbn [body_of bind]. unfold parse_places.
    unfold candidates in Hnone.
    destruct (py_get data "elements" (JArr [])) as [elements | err];
      cbn [bind] in *; [ | discriminate Hnone].
    rewrite Hnone. reflexivity. }
  rewrite Hf, Hq. repeat split; reflexivity.
Qed.

Lemma failure_returns_empty_list_witness :
  fst (get_tourist_attractions sample_location 5 (fun _ => Status 504)) = [] /\
  fst (get_tourist_attractions sample_location 5
         (fun _ => Body (JObj [("elements", JArr [])]))) = [] /\
  snd (get_tourist_attractions sample_location 5 (fun _ => Status 504)) =
    [Sent (overpass_of sample_location 5); StError Places (HTTPError 504)] /\
  snd (get_tourist_attractions sample_location 5
         (fun _ => Body (JObj [("elements", JArr [])]))) =
    [Sent (overpass_of sample_location 5)].
Proof.
  apply (failure_returns_empty_list sample_location 5
           (fun _ => Status 504) (fun _ => Body (JObj [("elements", JArr [])]))
           (HTTPError 504) (JObj [("elements", JArr [])])).
  - right. left. exists 504. split; reflexivity.
  - reflexivity.
  - reflexivity.
Defined.

(** ** The orchestrator *)

Section Orchestrator.

Variable py_float : json -> exn spec_float.

Lemma requests_of_app (t1 t2 : list event) :
  requests_of (t1 ++ t2) = requests_of t1 ++ requests_of t2.
Proof.
  apply flat_map_app.
Qed.

(** The panels read nothing from the providers and send nothing. *)
Lemma write_places_quiet (ps : list Place) :
  forall (idx : Z) (env env' : providers),
    write_places idx ps env = write_places idx ps env' /\
    requests_of (snd (write_places idx ps env)) = [].
Proof.
  induction ps as [ | p rest IH]; intros idx env env'; simpl.
  - split; reflexivity.
  - unfold io_bind, emit.
    destruct (IH (idx + 1) env env') as [Heq Hreq]. rewrite Heq.
    split; [reflexivity | ].
    rewrite Heq in Hreq.
    destruct (write_places (idx + 1) rest env') as [u t]. simpl in *. exact Hreq.
Qed.

Lemma show_places_quiet (ps : list Place) (env env' : providers) :
  show_places ps env = show_places ps env' /\
  requests_of (snd (show_places ps env)) = [].
Proof.
  destruct ps as [ | p rest].
  - split; reflexivity.
  - unfold show_places, io_bind, emit.
    destruct (write_places_quiet (p :: rest) 1 env env') as [Heq Hreq].
    rewrite Heq. rewrite Heq in Hreq.
    destruct (write_places 1 (p :: rest) env') as [u t].
    split; [reflexivity | exact Hreq].
Qed.

Lemma show_weather_quiet (w : option WeatherInfo) (env env' : providers) :
  show_weather w env = show_weather w env' /\
  requests_of (snd (show_weather w env)) = [].
Proof.
  destruct w; split; reflexivity.
Qed.

(** What each adapter sends. *)
Lemma get_coordinates_requests (place_name : string) (env : providers) :
  requests_of (snd (get_coordinates py_float place_name env)) = [Geocode place_name].
Proof.
  unfold get_coordinates. rewrite try_except_eq.
  destruct (bind _ _); reflexivity.
Qed.

Lemma get_weather_requests (location : Location) (env : providers) :
  requests_of (snd (get_weather location env)) = [forecast_of location].
Proof.
  unfold get_weather. rewrite try_except_eq.
  destruct (bind _ _); reflexivity.
Qed.

Lemma get_tourist_attractions_requests
    (location : Location) (limit : Z) (env : providers) :
  requests_of (snd (get_tourist_attractions location limit env)) =
  [overpass_of location limit].
Proof.
  unfold get_tourist_attractions. rewrite try_except_eq.
  destruct (bind _ _); reflexivity.
Qed.

(** Each adapter reads the providers at its own request only. *)
Lemma get_coordinates_ext (place_name : string) (env env' : providers) :
  env (Geocode place_name) = env' (Geocode place_name) ->
  get_coordinates py_float place_name env = get_coordinates py_float place_name env'.
Proof.
  intros H. unfold get_coordinates. rewrite !try_except_eq, H. reflexivity.
Qed.

Lemma get_weather_ext (location : Location) (env env' : providers) :
  env (forecast_of location) = env' (forecast_of location) ->
  get_weather location env = get_weather location env'.
Proof.
  intros H. unfold get_weather. rewrite !try_except_eq.
  fold (forecast_of location). rewrite H. reflexivity.
Qed.

Lemma get_tourist_attractions_ext
    (location : Location) (limit : Z) (env env' : providers) :
  env (overpass_of location limit) = env' (overpass_of location limit) ->
  get_tourist_attractions location limit env =
  get_tourist_attractions location limit env'.
Proof.
  intros H. unfold get_tourist_attractions. rewrite !try_except_eq.
  fold (overpass_of location limit). rewrite H. reflexivity.
Qed.

Lemma process_query_eq (place_name : string) (gw gp : bool) (env : providers) :
  process_query py_float place_name gw gp env =
  match get_coordinates py_float place_name env with
  | (None, t) =>
      (mkOutcome None None None,
       Spinner Geocoding :: t ++ [StErrorNotFound place_name])
  | (Some loc, t) =>
      let (w, tw) := weather_stage loc gw env in
      let (ps, tp) := places_stage loc gp env in
      (mkOutcome (Some loc) w ps,
       Spinner Geocoding :: t ++ StSuccess (loc_display_name loc) :: tw ++ tp)
  end.
Proof.
  unfold process_query, weather_stage, places_stage, io_bind, emit, io_ret.
  destruct (get_coordinates py_float place_name env) as [[loc | ] t];
    [ | reflexivity].
  destruct gw, gp;
    repeat match goal with
           | |- context [get_weather ?l ?e] =>
               destruct (get_weather l e) as [? ?]
           | |- context [get_tourist_attractions ?l ?n ?e] =>
               destruct (get_tourist_attractions l n e) as [? ?]
           | |- context [show_weather ?w ?e] =>
               destruct (show_weather w e) as [? ?]
           | |- context [show_places ?ps ?e] =>
               destruct (show_places ps e) as [? ?]
           end;
    simpl; rewrite ?app_nil_r; reflexivity.
Qed.

Lemma weather_stage_spec (loc : Location) (flag : bool) (env : providers) :
  fst (weather_stage loc flag env) =
    (if flag then Some (fst (get_weather loc env)) else None) /\
  requests_of (snd (weather_stage loc flag env)) =
    (if flag then [forecast_of loc] else []).
Proof.
  destruct flag; [ | split; reflexivity].
  unfold weather_stage, io_bind, emit, io_ret.
  pose proof (get_weather_requests loc env) as Hreq.
  destruct (get_weather loc env) as [w tw].
  pose proof (proj2 (show_weather_quiet w env env)) as Hshow.
  destruct (show_weather w env) as [u ts]. simpl in *.
  split; [reflexivity | ].
  rewrite !requests_of_app, Hreq, Hshow. reflexivity.
Qed.

Lemma places_stage_spec (loc : Location) (flag : bool) (env : providers) :
  fst (places_stage loc flag env) =
    (if flag then Some (fst (get_tourist_attractions loc 5 env)) else None) /\
  requests_of (snd (places_stage loc flag env)) =
    (if flag then [overpass_of loc 5] else []).
Proof.
  destruct flag; [ | split; reflexivity].
  unfold places_stage, io_bind, emit, io_ret.
  pose proof (get_tourist_attractions_requests loc 5 env) as Hreq.
  destruct (get_tourist_attractions loc 5 env) as [ps tp].
  pose proof (proj2 (show_places_quiet ps env env)) as Hshow.
  destruct (show_places ps env) as [u ts]. simpl in *.
  split; [reflexivity | ].
  rewrite !requests_of_app, Hreq, Hshow. reflexivity.
Qed.

Lemma weather_stage_ext (loc : Location) (flag : bool) (env env' : providers) :
  (flag = true -> env (forecast_of loc) = env' (forecast_of loc)) ->
  weather_stage loc flag env = weather_stage loc flag env'.
Proof.
  destruct flag; [ | reflexivity]. intros H.
  unfold weather_stage, io_bind, emit, io_ret.
  rewrite (get_weather_ext loc env env' (H eq_refl)).
  destruct (get_weather loc env') as [w tw].
  rewrite (proj1 (show_weather_quiet w env env')). reflexivity.
Qed.

Lemma places_stage_ext (loc : Location) (flag : bool) (env env' : providers) :
  (flag = true -> env (overpass_of loc 5) = env' (overpass_of loc 5)) ->
  places_stage loc flag env = places_stage loc flag env'.
Proof.
  destruct flag; [ | reflexivity]. intros H.
  unfold places_stage, io_bind, emit, io_ret.
  rewrite (get_tourist_attractions_ext loc 5 env env' (H eq_refl)).
  destruct (get_tourist_attractions loc 5 env') as [ps tp].
  rewrite (proj1 (show_places_quiet ps env env')). reflexivity.
Qed.

(** The requests of a run: the geocoder, then, if a location came back,
    the forecast and the places as the flags ask for them. *)
Lemma process_query_requests (place_name : string) (gw gp : bool) (env : providers) :
  requests_of (snd (process_query py_float place_name gw gp env)) =
  Geocode place_name ::
  match fst (get_coordinates py_float place_name env) with
  | None => []
  | Some loc =>
      (if gw then [forecast_of loc] else []) ++
      (if gp then [overpass_of loc 5] else [])
  end.
Proof.
  rewrite process_query_eq.
  pose proof (get_coordinates_requests place_name env) as Hgeo.
  destruct (get_coordinates py_float place_name env) as [[loc | ] t]; simpl in *.
  - pose proof (weather_stage_spec loc gw env) as [_ Hw].
    pose proof (places_stage_spec loc gp env) as [_ Hp].
    destruct (weather_stage loc gw env) as [w tw].
    destruct (places_stage loc gp env) as [ps tp]. simpl in *.
    rewrite requests_of_app, Hgeo. simpl.
    rewrite requests_of_app, Hw, Hp. reflexivity.
  - rewrite requests_of_app, Hgeo. reflexivity.
Qed.

(** C1.  When the geocoder returns zero matches, [process_query] has no
    [Location], sends nothing but the geocoding request whatever the
    flags, and shows the not-found notice only.  Only the geocoding stage
    cuts a run short: once a location is there, the forecast and the
    places are requested as the flags say, whatever comes back. *)
Theorem process_query_not_found
    (place_name : string) (gw gp : bool) (env : providers) :
  env (Geocode place_name) = Body (JArr []) ->
  fst (get_coordinates py_float place_name env) = None /\
  process_query py_float place_name gw gp env =
    (mkOutcome None None None,
     [Spinner Geocoding; Sent (Geocode place_name); StErrorNotFound place_name]) /\
  requests_of (snd (process_query py_float place_name gw gp env)) =
    [Geocode place_name] /\
  notices (snd (process_query py_float place_name gw gp env)) =
    [StErrorNotFound place_name] /\
  forall (env' : providers) (loc : Location),
    fst (get_coordinates py_float place_name env') = Some loc ->
    requests_of (snd (process_query py_float place_name gw gp env')) =
    Geocode place_name ::
    (if gw then [forecast_of loc] else []) ++
    (if gp then [overpass_of loc 5] else []).
Proof.
  intros Hempty.
  assert (Hgeo : get_coordinates py_float place_name env =
                 (None, [Sent (Geocode place_name)])).
  { unfold get_coordinates. rewrite try_except_eq, Hempty. reflexivity. }
  assert (Hrun : process_query py_float place_name gw gp env =
                 (mkOutcome None None None,
                  [Spinner Geocoding; Sent (Geocode place_name);
                   StErrorNotFound place_name])).
  { rewrite process_query_eq, Hgeo. reflexivity. }
  split; [rewrite Hgeo; reflexivity | ].
  split; [exact Hrun | ].
  rewrite Hrun. split; [reflexivity | split; [reflexivity | ]].
  intros env' loc Hloc. rewrite process_query_requests, Hloc. reflexivity.
Qed.

(** C7.  When geocoding succeeds, the forecast is requested before the
    places, each of the two is requested exactly when its flag is set, and
    the places are fetched whatever the weather lookup returned. *)
Theorem weather_before_places
    (place_name : string) (gw gp : bool) (env : providers) (loc : Location) :
  fst (get_coordinates py_float place_name env) = Some loc ->
  requests_of (snd (process_query py_float place_name gw gp env)) =
    Geocode place_name ::
    (if gw then [forecast_of loc] else []) ++
    (if gp then [overpass_of loc 5] else []) /\
  out_weather (fst (process_query py_float place_name gw gp env)) =
    (if gw then Some (fst (get_weather loc env)) else None) /\
  out_places (fst (process_query py_float place_name gw gp env)) =
    (if gp then Some (fst (get_tourist_attractions loc 5 env)) else None).
Proof.
  intros Hloc. split.
  - rewrite process_query_requests, Hloc. reflexivity.
  - rewrite process_query_eq.
    destruct (get_coordinates py_float place_name env) as [l t].
    simpl in Hloc. subst l.
    pose proof (weather_stage_spec loc gw env) as [Hw _].
    pose proof (places_stage_spec loc gp env) as [Hp _].
    destruct (weather_stage loc gw env) as [w tw].
    destruct (places_stage loc gp env) as [ps tp]. simpl in *.
    split; assumption.
Qed.

(** A run depends on the providers through the responses to its own
    requests only. *)
Lemma process_query_ext
    (place_name : string) (gw gp : bool) (env env' : providers) :
  (forall r,
      In r (requests_of (snd (process_query py_float place_name gw gp env))) ->
      env r = env' r) ->
  process_query py_float place_name gw gp env =
  process_query py_float place_name gw gp env'.
Proof.
  intros Hsame. rewrite process_query_requests in Hsame.
  rewrite !process_query_eq.
  rewrite <- (get_coordinates_ext place_name env env')
    by (apply Hsame; left; reflexivity).
  destruct (get_coordinates py_float place_name env) as [[loc | ] t];
    [ | reflexivity].
  simpl in Hsame.
  rewrite <- (weather_stage_ext loc gw env env').
  2:{ intros ->. apply Hsame. right. left. reflexivity. }
  rewrite <- (places_stage_ext loc gp env env').
  2:{ intros ->. apply Hsame. right. apply in_or_app. right. left. reflexivity. }
  reflexivity.
Qed.

End Orchestrator.

(** ** Sample runs of the orchestrator *)

Lemma process_query_not_found_witness :
  process_query sample_float "Atlantis" true true sample_env =
  (mkOutcome None None None,
   [Spinner Geocoding; Sent (Geocode "Atlantis"); StErrorNotFound "Atlantis"]).
Proof.
  exact (proj1 (proj2
           (process_query_not_found sample_float "Atlantis" true true sample_env
              eq_refl))).
Defined.

Lemma weather_before_places_witness :
  requests_of (snd (process_query sample_float "Paris" true true sample_env)) =
  [Geocode "Paris"; forecast_of sample_location; overpass_of sample_location 5] /\
  out_weather (fst (process_query sample_float "Paris" true true sample_env)) =
  Some None /\
  out_places (fst (process_query sample_float "Paris" true true sample_env)) =
  Some [mkPlace (JStr "Louvre") "Museum" (JInt 48) (JInt 2);
        mkPlace (JStr "Colonne de Juillet") "Historic Monument" (JInt 48) (JInt 2)].
Proof.
  exact (weather_before_places sample_float "Paris" true true sample_env
           sample_location eq_refl).
Defined.

(** * Further properties of the adapters *)

(** ** The loop and its exit *)

Lemma for_each_run (limit : Z) (elements : list json) :
  forall a, for_each limit elements a =
            (f <- run limit elements a ;; Ret (places (flow_acc f))).
Proof.
  induction elements as [ | element rest IH]; intros a; simpl.
  - reflexivity.
  - destruct (visit limit a element) as [[a' | a'] | e]; simpl;
      [apply IH | reflexivity | reflexivity].
Qed.

Lemma run_app (limit : Z) (pre post : list json) :
  forall a, run limit (pre ++ post) a =
            (f <- run limit pre a ;;
             match f with
             | Next a' => run limit post a'
             | Break a' => Ret (Break a')
             end).
Proof.
  induction pre as [ | element rest IH]; intros a; simpl.
  - reflexivity.
  - destruct (visit limit a element) as [[a' | a'] | e]; simpl;
      [apply IH | reflexivity | reflexivity].
Qed.

(** The loop leaves through [break] with a list that has reached the limit,
    and runs to the end only with a list that is empty or below the limit. *)
Lemma run_exit (limit : Z) (elements : list json) :
  forall a f,
    run limit elements a = Ret f ->
    places a = [] \/ Z.of_nat (List.length (places a)) < limit ->
    match f with
    | Next a' => places a' = [] \/ Z.of_nat (List.length (places a')) < limit
    | Break a' => places a' <> [] /\ limit <= Z.of_nat (List.length (places a'))
    end.
Proof.
  induction elements as [ | element rest IH]; intros a f H Ha; simpl in H.
  - injection H as <-. exact Ha.
  - bind_inv H as g Hvisit. apply visit_spec in Hvisit.
    destruct Hvisit as [-> | (p & k & _ & _ & _ & Hg)].
    + apply (IH a f H Ha).
    + simpl in Hg. subst g.
      destruct (Z.of_nat (List.length (places a ++ [p])) >=? limit) eqn:Hstop.
      * injection H as <-. simpl. split.
        -- destruct (places a); discriminate.
        -- rewrite Z.geb_leb in Hstop. apply Z.leb_le in Hstop. exact Hstop.
      * apply (IH _ f H). simpl. right.
        rewrite Z.geb_leb in Hstop. apply Z.leb_gt in Hstop. exact Hstop.
Qed.

Lemma offered_parse (env : providers) (location : Location) (limit : Z)
    (elements : list json) :
  offered env location limit elements ->
  bind (body_of (env (overpass_of location limit))) (parse_places limit) =
  for_each limit elements init.
Proof.
  intros (data & Henv & Hcand). rewrite Henv. cbn [body_of bind].
  unfold parse_places. unfold candidates in Hcand.
  destruct (py_get data "elements" (JArr [])) as [els | e]; cbn [bind] in *;
    [ | discriminate Hcand].
  rewrite Hcand. reflexivity.
Qed.

Lemma get_tourist_attractions_offered (env : providers) (location : Location)
    (limit : Z) (elements : list json) :
  offered env location limit elements ->
  get_tourist_attractions location limit env =
  match for_each limit elements init with
  | Ret ps => (ps, [Sent (overpass_of location limit)])
  | Raise e => ([], [Sent (overpass_of location limit); StError Places e])
  end.
Proof.
  intros Hoffered. unfold get_tourist_attractions. rewrite try_except_eq.
  fold (overpass_of location limit).
  rewrite (offered_parse _ _ _ _ Hoffered). reflexivity.
Qed.

(** X2.  Once the list has reached the limit the loop looks at nothing
    more: when the candidates up to some point fill the list, whatever
    follows them in the response, malformed or not, changes neither the
    returned places nor the trace. *)
Theorem places_stop_at_limit
    (location : Location) (limit : Z) (env : providers)
    (pre post : list json) (ps : list Place) :
  offered env location limit (pre ++ post) ->
  for_each limit pre init = Ret ps ->
  ps <> [] ->
  limit <= Z.of_nat (List.length ps) ->
  get_tourist_attractions location limit env =
  (ps, [Sent (overpass_of location limit)]).
Proof.
  intros Hoffered Hpre Hsome Hfull.
  rewrite (get_tourist_attractions_offered _ _ _ _ Hoffered).
  rewrite for_each_run in Hpre. rewrite for_each_run, run_app.
  destruct (run limit pre init) as [f | e] eqn:Hrun; [ | discriminate Hpre].
  cbn [bind] in *. injection Hpre as Hps.
  pose proof (run_exit limit pre init f Hrun (or_introl eq_refl)) as Hexit.
  destruct f as [a' | a']; simpl in *.
  - exfalso. subst ps. destruct Hexit as [Hnil | Hlt]; [contradiction | lia].
  - rewrite Hps. reflexivity.
Qed.

Lemma places_stop_at_limit_witness :
  get_tourist_attractions sample_location 1
    (fun _ => Body (JObj [("elements", JArr ([feature "Louvre" []] ++ [JNull]))])) =
  ([mkPlace (JStr "Louvre") "Attraction" (JInt 48) (JInt 2)],
   [Sent (overpass_of sample_location 1)]).
Proof.
  apply (places_stop_at_limit sample_location 1 _ [feature "Louvre" []] [JNull]).
  - eexists. split; reflexivity.
  - reflexivity.
  - discriminate.
  - simpl. lia.
Defined.

(** X3.  One candidate on which the iteration raises loses the whole
    lookup: if the loop comes to it without having left through [break],
    in whatever state, and the iteration on it raises in that state, the
    adapter returns the empty list, not the places of that state, and
    reports the exception. *)
Theorem places_all_or_nothing
    (location : Location) (limit : Z) (env : providers)
    (pre : list json) (bad : json) (post : list json) (a : acc) (e : exc) :
  offered env location limit (pre ++ bad :: post) ->
  run limit pre init = Ret (Next a) ->
  visit limit a bad = Raise e ->
  get_tourist_attractions location limit env =
  ([], [Sent (overpass_of location limit); StError Places e]).
Proof.
  intros Hoffered Hpre Hbad.
  rewrite (get_tourist_attractions_offered _ _ _ _ Hoffered).
  rewrite for_each_run, run_app, Hpre. cbn [bind run].
  rewrite Hbad. reflexivity.
Qed.

(** A candidate whose category tag is [null], under a name not seen
    before: the place found before it is lost with it. *)
Lemma places_all_or_nothing_witness :
  get_tourist_attractions sample_location 5
    (fun _ => Body (JObj [("elements",
        JArr ([feature "Orsay" []] ++ untyped_louvre :: []))])) =
  ([], [Sent (overpass_of sample_location 5); StError Places AttributeError]).
Proof.
  apply (places_all_or_nothing sample_location 5 _ [feature "Orsay" []]
           untyped_louvre []
           (mkAcc [mkPlace (JStr "Orsay") "Attraction" (JInt 48) (JInt 2)]
                  [KStr "Orsay"])).
  - eexists. split; reflexivity.
  - reflexivity.
  - reflexivity.
Defined.

(** ** The limit *)

(** The limit enters an iteration in the choice between [break] and going
    on only. *)
Lemma visit_other_limit (limit limit' : Z) (a : acc) (element : json) :
  visit limit' a element =
  (f <- visit limit a element ;; Ret (retag limit' a f)).
Proof.
  assert (Hsame : retag limit' a (Next a) = Next a).
  { unfold retag. simpl. rewrite Nat.eqb_refl. reflexivity. }
  unfold visit.
  destruct (coordinates element) as [[[lat lon] | ] | e]; cbn [bind];
    [ | rewrite Hsame; reflexivity | reflexivity].
  destruct (py_get element "tags" (JObj [])) as [tags | e]; cbn [bind];
    [ | reflexivity].
  destruct (py_get tags "name" (JStr "")) as [name | e]; cbn [bind];
    [ | reflexivity].
  destruct (truthy name); cbn [negb bind]; [ | rewrite Hsame; reflexivity].
  destruct (py_hash name) as [k | e]; cbn [bind]; [ | reflexivity].
  destruct (key_in k (seen_names a)); cbn [bind]; [rewrite Hsame; reflexivity | ].
  destruct (py_get tags "historic" (JStr "attraction")) as [historic | e];
    cbn [bind]; [ | reflexivity].
  destruct (py_get tags "tourism" historic) as [attraction_type | e];
    cbn [bind]; [ | reflexivity].
  destruct (py_replace_title attraction_type) as [type | e]; cbn [bind];
    [ | reflexivity].
  assert (Hgrown : forall f,
             flow_acc f = mkAcc (places a ++ [mkPlace name type lat lon])
                                (k :: seen_names a) ->
             retag limit' a f =
             if Z.of_nat (List.length (places a ++ [mkPlace name type lat lon]))
                >=? limit'
             then Break (flow_acc f) else Next (flow_acc f)).
  { intros f Hf. unfold retag. rewrite Hf. cbn [places].
    rewrite length_app. simpl.
    replace (Nat.eqb (List.length (places a) + 1) (List.length (places a)))
      with false; [reflexivity | ].
    symmetry. apply Nat.eqb_neq. lia. }
  cbn [places].
  destruct (Z.of_nat (List.length (places a ++ [mkPlace name type lat lon])) >=? limit);
    cbn [bind]; rewrite Hgrown by reflexivity; cbn [flow_acc];
    destruct (_ >=? limit'); reflexivity.
Qed.

Lemma for_each_prefix (small large : Z) (elements : list json) :
  small <= large ->
  forall a ps,
    for_each large elements a = Ret ps ->
    Z.of_nat (List.length (places a)) < small ->
    for_each small elements a = Ret (firstn (Z.to_nat small) ps).
Proof.
  intros Hle. induction elements as [ | element rest IH]; intros a ps H Ha; simpl in H.
  - injection H as <-. simpl. rewrite firstn_all2; [reflexivity | lia].
  - simpl. rewrite (visit_other_limit large small).
    bind_inv H as f Hvisit. rewrite Hvisit. cbn [bind].
    apply visit_spec in Hvisit.
    destruct Hvisit as [-> | (p & k & _ & _ & _ & Hf)].
    + unfold retag. simpl. rewrite Nat.eqb_refl. apply IH; assumption.
    + simpl in Hf.
      set (a' := mkAcc (places a ++ [p]) (k :: seen_names a)) in *.
      assert (Hacc : flow_acc f = a').
      { subst f. destruct (_ >=? large); reflexivity. }
      assert (Hlen : List.length (places a') = S (List.length (places a))).
      { unfold a'. simpl. rewrite length_app. simpl. lia. }
      unfold retag. rewrite Hacc. rewrite Hlen.
      replace (Nat.eqb (S (List.length (places a))) (List.length (places a)))
        with false by (symmetry; apply Nat.eqb_neq; lia).
      destruct (Z.of_nat (S (List.length (places a))) >=? small) eqn:Hstop.
      * rewrite Z.geb_leb in Hstop. apply Z.leb_le in Hstop.
        assert (Hps : exists new, ps = places a' ++ new).
        { subst f. destruct (_ >=? large).
          - injection H as <-. exists []. rewrite app_nil_r. reflexivity.
          - apply for_each_picks in H. destruct H as (new & -> & _).
            exists new. reflexivity. }
        destruct Hps as (new & ->).
        replace (Z.to_nat small) with (List.length (places a') + 0)%nat by lia.
        rewrite firstn_app_2. simpl. rewrite app_nil_r. reflexivity.
      * rewrite Z.geb_leb in Hstop. apply Z.leb_gt in Hstop.
        subst f. replace (Z.of_nat (List.length (places a ++ [p])) >=? large)
          with false in H.
        2:{ symmetry. rewrite Z.geb_leb. apply Z.leb_gt.
            rewrite length_app. simpl. lia. }
        apply IH; [exact H | ]. rewrite Hlen. exact Hstop.
Qed.

(** X4.  A smaller limit returns a prefix: on one and the same body, if the
    lookup with the larger limit does not fail, the lookup with a smaller
    limit of at least one returns its first places, as many as the smaller
    limit. *)
Theorem places_limit_prefix
    (location : Location) (small large : Z) (env : providers) (data : json) :
  env (overpass_of location small) = Body data ->
  env (overpass_of location large) = Body data ->
  1 <= small <= large ->
  snd (get_tourist_attractions location large env) =
    [Sent (overpass_of location large)] ->
  get_tourist_attractions location small env =
  (firstn (Z.to_nat small) (fst (get_tourist_attractions location large env)),
   [Sent (overpass_of location small)]).
Proof.
  intros Hsmall Hlarge Hle Hquiet.
  destruct (get_tourist_attractions_cases location large env)
    as [(elements & ps & Hoffered & Hloop & Hrun) | (e & _ & Hrun)];
    rewrite Hrun in *; [ | discriminate Hquiet].
  destruct Hoffered as (data' & Henv & Hcand).
  rewrite Hlarge in Henv. injection Henv as <-.
  rewrite (get_tourist_attractions_offered env location small elements)
    by (exists data; split; assumption).
  rewrite (for_each_prefix small large elements (proj2 Hle) _ ps Hloop);
    [reflexivity | simpl; lia].
Qed.

Lemma places_limit_prefix_witness :
  get_tourist_attractions sample_location 1 (fun _ => Body sample_features) =
  (firstn (Z.to_nat 1)
     (fst (get_tourist_attractions sample_location 5 (fun _ => Body sample_features))),
   [Sent (overpass_of sample_location 1)]).
Proof.
  apply (places_limit_prefix sample_location 1 5 (fun _ => Body sample_features)
           sample_features); try reflexivity.
  lia.
Defined.

(** ** The loop in stages *)

Lemma position_coordinates (fields : list (string * json)) (c : json * json) :
  position fields = Some c -> coordinates (JObj fields) = Ret (Some c).
Proof.
  unfold position, coordinates. cbn [py_contains py_item bind].
  destruct (assoc "lat" fields) as [lat | ];
    [destruct (assoc "lon" fields) as [lon | ] | ]; cbn [bind];
    try (intros H; injection H as <-; reflexivity);
    (destruct (assoc "center" fields) as [center | ]; cbn [bind];
     [ | discriminate]);
    (destruct center as [ | b | z | f | s | items | cf]; try discriminate);
    cbn [py_item bind];
    (destruct (assoc "lat" cf) as [clat | ]; [ | discriminate]);
    (destruct (assoc "lon" cf) as [clon | ]; [ | discriminate]);
    cbn [bind]; intros H; injection H as <-; reflexivity.
Qed.

(** On a well-formed candidate an iteration does not raise: it passes over
    a candidate that stands for no place or for a name already seen, and
    appends the place of any other. *)
Lemma visit_well_formed (limit : Z) (a : acc) (element : json) :
  well_formed element = true ->
  visit limit a element =
  Ret (match place_of element with
       | Some (k, p) =>
           if key_in k (seen_names a) then Next a
           else
             let a' := mkAcc (places a ++ [p]) (k :: seen_names a) in
             if Z.of_nat (List.length (places a')) >=? limit
             then Break a' else Next a'
       | None => Next a
       end).
Proof.
  destruct element as [ | b | z | f | s | items | fields]; try discriminate.
  unfold well_formed, place_of, visit.
  destruct (position fields) as [[lat lon] | ] eqn:Hpos.
  2:{ intros Hlacks. rewrite (lacks_coordinates_continue _ Hlacks). reflexivity. }
  rewrite (position_coordinates fields (lat, lon) Hpos).
  cbn [bind py_get].
  destruct (assoc "tags" fields) as [tags | ]; [ | intros _; reflexivity].
  destruct tags as [ | b | z | f | s | items | tf]; try discriminate.
  cbn [bind py_get].
  destruct (assoc "name" tf) as [name | ]; [ | intros _; reflexivity].
  destruct (truthy name) eqn:Htruthy; cbn [negb orb];
    [ | intros _; destruct (category_tag tf); reflexivity].
  intros H. apply andb_true_iff in H. destruct H as [Hname Hcat].
  assert (Hhash : exists k, py_hash name = Ret k).
  { destruct name; try discriminate Hname; eexists; reflexivity. }
  destruct Hhash as (k & Hhash).
  fold (category_tag tf).
  destruct (category_tag tf) as [ | b | z | f | raw | items | cf];
    try discriminate Hcat.
  rewrite Hhash. cbn [bind].
  destruct (key_in k (seen_names a)); [reflexivity | ].
  cbn [py_replace_title bind places]. unfold normalize.
  destruct (_ >=? limit); reflexivity.
Qed.

Lemma for_each_well_formed (limit : Z) (elements : list json) :
  forallb well_formed elements = true ->
  forall a,
    Z.of_nat (List.length (places a)) < Z.max limit 1 ->
    for_each limit elements a =
    Ret (places a ++
         firstn (Z.to_nat (Z.max limit 1) - List.length (places a))
                (dedup (seen_names a) (named_places elements))).
Proof.
  induction elements as [ | element rest IH]; intros Hwf a Ha; simpl.
  - rewrite firstn_nil, app_nil_r. reflexivity.
  - simpl in Hwf. apply andb_true_iff in Hwf. destruct Hwf as [He Hrest].
    rewrite (visit_well_formed limit a element He). cbn [bind].
    unfold named_places in *. simpl.
    destruct (place_of element) as [[k p] | ]; simpl.
    2:{ apply IH; assumption. }
    destruct (key_in k (seen_names a)); [apply IH; assumption | ].
    destruct (Z.of_nat (List.length (places a ++ [p])) >=? limit) eqn:Hstop.
    + rewrite Z.geb_leb in Hstop. apply Z.leb_le in Hstop.
      rewrite length_app in Hstop. simpl in Hstop.
      replace (Z.to_nat (Z.max limit 1) - List.length (places a))%nat
        with 1%nat by lia.
      reflexivity.
    + rewrite Z.geb_leb in Hstop. apply Z.leb_gt in Hstop.
      rewrite length_app in Hstop. simpl in Hstop.
      rewrite IH; [ | assumption | simpl; rewrite length_app; simpl; lia].
      simpl. rewrite length_app. simpl. rewrite <- app_assoc. simpl.
      replace (Z.to_nat (Z.max limit 1) - List.length (places a))%nat
        with (S (Z.to_nat (Z.max limit 1) - (List.length (places a) + 1)))%nat
        by lia.
      reflexivity.
Qed.

(** X5.  On a response of well-formed candidates the lookup is three
    stages in a row: take the candidates that stand for a place (with
    coordinates and a truthy name), keep the first place of every name, cut
    after [limit] places (after one place when the limit is below one).
    It does not fail and it reports nothing. *)
Theorem places_in_stages
    (location : Location) (limit : Z) (env : providers) (elements : list json) :
  offered env location limit elements ->
  forallb well_formed elements = true ->
  get_tourist_attractions location limit env =
  (firstn (Z.to_nat (Z.max limit 1)) (dedup [] (named_places elements)),
   [Sent (overpass_of location limit)]).
Proof.
  intros Hoffered Hwf.
  rewrite (get_tourist_attractions_offered _ _ _ _ Hoffered).
  rewrite (for_each_well_formed limit elements Hwf init) by (simpl; lia).
  simpl. rewrite Nat.sub_0_r. reflexivity.
Qed.

Lemma places_in_stages_witness :
  get_tourist_attractions sample_location 5 (fun _ => Body sample_features) =
  ([mkPlace (JStr "Louvre") "Museum" (JInt 48) (JInt 2);
    mkPlace (JStr "Colonne de Juillet") "Historic Monument" (JInt 48) (JInt 2)],
   [Sent (overpass_of sample_location 5)]).
Proof.
  apply (places_in_stages sample_location 5 (fun _ => Body sample_features)
           [ feature "Louvre" [("tourism", JStr "museum")];
             feature "Louvre" [("tourism", JStr "attraction")];
             feature "Colonne de Juillet" [("historic", JStr "historic_monument")] ]).
  - exists sample_features. split; reflexivity.
  - reflexivity.
Defined.

(** ** Display types *)








(** ** The weather adapter *)

Lemma get_weather_body (location : Location) (env : providers) (data : json) :
  env (forecast_of location) = Body data ->
  get_weather location env =
  match parse_weather data with
  | Ret w => (Some w, [Sent (forecast_of location)])
  | Raise e => (None, [Sent (forecast_of location); StError Weather e])
  end.
Proof.
  intros Henv. unfold get_weather. rewrite try_except_eq.
  fold (forecast_of location). rewrite Henv. reflexivity.
Qed.

(** X8.  Whenever the weather adapter returns a [WeatherInfo], its
    temperature and its weather code are those of the [current] object of
    the body, or [0] where the object, or the body, has none, and its
    description is the description of its own weather code: "clear sky"
    when the code is missing. *)
Theorem weather_fields_from_current
    (location : Location) (env : providers) (w : WeatherInfo) :
  fst (get_weather location env) = Some w ->
  exists fields,
    env (forecast_of location) = Body (JObj fields) /\
    temperature w = get_or_zero "temperature_2m" (current_of fields) /\
    weather_code w = get_or_zero "weather_code" (current_of fields) /\
    _get_weather_description (weather_code w) = Ret (description w) /\
    (assoc "weather_code" (current_of fields) = None ->
     description w = "clear sky").
Proof.
  intros H. apply get_weather_Some in H. destruct H as (data & Henv & Hparse).
  unfold parse_weather in Hparse.
  bind_inv Hparse as current Hcurrent.
  bind_inv Hparse as daily Hdaily.
  bind_inv Hparse as present Hpresent.
  bind_inv Hparse as rc Hrc.
  bind_inv Hparse as code Hcode.
  bind_inv Hparse as phrase Hphrase.
  bind_inv Hparse as temp Htemp.
  injection Hparse as <-. cbn [temperature weather_code description].
  destruct data as [ | b | z | f | s | items | fields]; try discriminate Hcurrent.
  exists fields. split; [exact Henv | ].
  cbn [py_get] in Hcurrent. injection Hcurrent as <-.
  unfold current_of, get_or_zero.
  destruct (assoc "current" fields) as [c | ].
  - destruct c as [ | b | z | f | s | items | cf]; try discriminate Hcode.
    cbn [py_get] in Hcode, Htemp. injection Hcode as <-. injection Htemp as <-.
    repeat split; try assumption.
    intros Hnone. rewrite Hnone in Hphrase. injection Hphrase as <-. reflexivity.
  - cbn [py_get assoc] in Hcode, Htemp. injection Hcode as <-. injection Htemp as <-.
    repeat split; try assumption.
    intros _. injection Hphrase as <-. reflexivity.
Qed.

Lemma weather_fields_from_current_witness :
  exists fields,
    Body (JObj [("daily", JObj [])]) = Body (JObj fields) /\
    JInt 0 = get_or_zero "temperature_2m" (current_of fields) /\
    JInt 0 = get_or_zero "weather_code" (current_of fields) /\
    _get_weather_description (JInt 0) = Ret "clear sky" /\
    (assoc "weather_code" (current_of fields) = None ->
     "clear sky" = "clear sky").
Proof.
  exact (weather_fields_from_current sample_location
           (fun _ => Body (JObj [("daily", JObj [])]))
           (mkWeatherInfo (JInt 0) (JInt 0) (JInt 0) "clear sky") eq_refl).
Defined.

(** X9.  On a forecast body of the documented shape (an object whose
    [current] and [daily], if present, are objects, with a scalar weather
    code and a series that is a list or [null]) the weather adapter
    returns a [WeatherInfo] and reports nothing. *)
Theorem weather_returns_on_plain_body
    (location : Location) (env : providers) (data : json) :
  env (forecast_of location) = Body data ->
  plain_forecast data = true ->
  exists w, get_weather location env = (Some w, [Sent (forecast_of location)]).
Proof.
  intros Henv Hplain. rewrite (get_weather_body _ _ _ Henv).
  destruct (parse_weather_returns data Hplain) as (w & ->).
  exists w. reflexivity.
Qed.

Lemma weather_returns_on_plain_body_witness :
  exists w,
    get_weather sample_location (fun _ => Body sample_forecast) =
    (Some w, [Sent (forecast_of sample_location)]).
Proof.
  apply (weather_returns_on_plain_body sample_location
           (fun _ => Body sample_forecast) sample_forecast); reflexivity.
Defined.

(** X10.  The defaults of [data.get('daily', {})] and
    [data.get('current', {})] stand in for a missing key only: a body with
    an explicit [null] under [daily], or under [current], makes the lookup
    fail, with a [TypeError] and an [AttributeError]. *)
Theorem weather_null_section_fails
    (location : Location) (env : providers) (fields : list (string * json)) :
  env (forecast_of location) = Body (JObj fields) ->
  (assoc "daily" fields = Some JNull ->
   get_weather location env =
   (None, [Sent (forecast_of location); StError Weather TypeError])) /\
  (assoc "daily" fields = None -> assoc "current" fields = Some JNull ->
   get_weather location env =
   (None, [Sent (forecast_of location); StError Weather AttributeError])).
Proof.
  intros Henv. rewrite (get_weather_body _ _ _ Henv).
  unfold parse_weather. cbn [py_get bind]. split.
  - intros ->. reflexivity.
  - intros -> ->. reflexivity.
Qed.

Lemma weather_null_section_fails_witness :
  get_weather sample_location
    (fun _ => Body (JObj [("current", JObj [("weather_code", JInt 3)]);
                          ("daily", JNull)])) =
  (None, [Sent (forecast_of sample_location); StError Weather TypeError]).
Proof.
  apply (proj1 (weather_null_section_fails sample_location _
                  [("current", JObj [("weather_code", JInt 3)]); ("daily", JNull)]
                  eq_refl)).
  reflexivity.
Defined.

(** ** The geocoder and the run as a whole *)

Lemma notices_app (t1 t2 : list event) :
  notices (t1 ++ t2) = notices t1 ++ notices t2.
Proof.
  apply filter_app.
Qed.

Lemma write_places_trace (ps : list Place) :
  forall (idx : Z) (env : providers) (i : nat) (p : Place),
    nth_error ps i = Some p ->
    nth_error (snd (write_places idx ps env)) i =
    Some (StWrite (idx + Z.of_nat i) (place_name p) (place_type p)).
Proof.
  induction ps as [ | q rest IH]; intros idx env i p Hnth.
  - destruct i; discriminate Hnth.
  - simpl. unfold io_bind, emit.
    destruct (write_places (idx + 1) rest env) as [u t] eqn:Hrest.
    destruct i as [ | i]; simpl in *.
    + injection Hnth as ->. rewrite Z.add_0_r. reflexivity.
    + pose proof (IH (idx + 1) env i p Hnth) as Hi.
      rewrite Hrest in Hi. simpl in Hi. rewrite Hi.
      f_equal. f_equal. lia.
Qed.

Lemma write_places_length (ps : list Place) :
  forall (idx : Z) (env : providers),
    List.length (snd (write_places idx ps env)) = List.length ps.
Proof.
  induction ps as [ | q rest IH]; intros idx env; simpl.
  - reflexivity.
  - unfold io_bind, emit. pose proof (IH (idx + 1) env) as Hrest.
    destruct (write_places (idx + 1) rest env) as [u t]. simpl in *.
    rewrite Hrest. reflexivity.
Qed.

(** X14.  The places panel is a subheader followed by one line per place,
    in the order of the list, the line of the place at position [i]
    (counted from zero) bearing the number [i + 1]. *)
Theorem places_panel_numbering
    (ps : list Place) (env : providers) (i : nat) (p : Place) :
  nth_error ps i = Some p ->
  nth_error (snd (show_places ps env)) 0 = Some (StSubheader Places) /\
  nth_error (snd (show_places ps env)) (S i) =
    Some (StWrite (Z.of_nat i + 1) (place_name p) (place_type p)) /\
  List.length (snd (show_places ps env)) = S (List.length ps).
Proof.
  intros Hnth. destruct ps as [ | q rest]; [destruct i; discriminate Hnth | ].
  unfold show_places, io_bind, emit.
  pose proof (write_places_trace (q :: rest) 1 env i p Hnth) as Hline.
  pose proof (write_places_length (q :: rest) 1 env) as Hlen.
  destruct (write_places 1 (q :: rest) env) as [u t].
  cbn [snd app nth_error] in *.
  split; [reflexivity | split].
  - rewrite Hline. f_equal. f_equal. lia.
  - cbn [List.length]. rewrite Hlen. reflexivity.
Qed.

Lemma places_panel_numbering_witness :
  nth_error (snd (show_places
                    [mkPlace (JStr "Louvre") "Museum" (JInt 48) (JInt 2);
                     mkPlace (JStr "Colonne de Juillet") "Historic Monument"
                             (JInt 48) (JInt 2)]
                    sample_env)) 2 =
  Some (StWrite 2 (JStr "Colonne de Juillet") "Historic Monument").
Proof.
  exact (proj1 (proj2
           (places_panel_numbering
              [mkPlace (JStr "Louvre") "Museum" (JInt 48) (JInt 2);
               mkPlace (JStr "Colonne de Juillet") "Historic Monument"
                       (JInt 48) (JInt 2)]
              sample_env 1
              (mkPlace (JStr "Colonne de Juillet") "Historic Monument"
                       (JInt 48) (JInt 2))
              eq_refl))).
Defined.

Section Geocoder.

Variable py_float : json -> exn spec_float.

Lemma get_coordinates_body (place_name : string) (env : providers) :
  get_coordinates py_float place_name env =
  match bind (body_of (env (Geocode place_name))) (parse_location py_float place_name) with
  | Ret l => (l, [Sent (Geocode place_name)])
  | Raise e => (None, [Sent (Geocode place_name); StError Geocoding e])
  end.
Proof.
  unfold get_coordinates. rewrite try_except_eq. reflexivity.
Qed.

Lemma parse_location_Some (place_name : string) (data : json) (loc : Location) :
  parse_location py_float place_name data = Ret (Some loc) <->
  exists fields rest lat lon,
    data = JArr (JObj fields :: rest) /\
    assoc "lat" fields = Some lat /\
    assoc "lon" fields = Some lon /\
    py_float lat = Ret (loc_latitude loc) /\
    py_float lon = Ret (loc_longitude loc) /\
    assoc "display_name" fields = Some (loc_display_name loc) /\
    loc_name loc = place_name.
Proof.
  unfold parse_location. split.
  - intros H. destruct (truthy data) eqn:Htruthy; cbn [negb] in H;
      [ | discriminate H].
    bind_inv H as location_data Hfirst.
    bind_inv H as lat Hlat.
    bind_inv H as latitude Hlatitude.
    bind_inv H as lon Hlon.
    bind_inv H as longitude Hlongitude.
    bind_inv H as display_name Hdisplay.
    injection H as <-.
    destruct location_data as [ | b | z | f | s | items | fields];
      try discriminate Hlat.
    destruct data as [ | b | z | f | s | items | dfields];
      try discriminate Hfirst.
    + destruct s; discriminate Hfirst.
    + destruct items as [ | first rest]; [discriminate Hfirst | ].
      injection Hfirst as ->.
      cbn [py_item] in Hlat, Hlon, Hdisplay.
      destruct (assoc "lat" fields) as [lat' | ] eqn:Hklat; [ | discriminate Hlat].
      destruct (assoc "lon" fields) as [lon' | ] eqn:Hklon; [ | discriminate Hlon].
      destruct (assoc "display_name" fields) as [dn | ] eqn:Hkdn;
        [ | discriminate Hdisplay].
      injection Hlat as ->. injection Hlon as ->. injection Hdisplay as ->.
      exists fields, rest, lat, lon.
      repeat split; first [assumption | reflexivity].
  - intros (fields & rest & lat & lon & -> & Hlat & Hlon & Hflat & Hflon & Hdn & Hname).
    cbn [truthy negb py_first bind py_item].
    rewrite Hlat. cbn [bind]. rewrite Hflat. cbn [bind].
    rewrite Hlon. cbn [bind]. rewrite Hflon. cbn [bind].
    rewrite Hdn. cbn [bind]. subst place_name.
    destruct loc. reflexivity.
Qed.

(** X11.  The geocoder adapter returns a [Location] exactly when the body
    is a list whose first match is an object with [lat], [lon] and
    [display_name], the first two convertible by [float]; the location
    then has the place name as the caller gave it, the converted
    coordinates and the display name of that first match, and further
    matches play no part. *)
Theorem geocode_success
    (place_name : string) (env : providers) (loc : Location) :
  fst (get_coordinates py_float place_name env) = Some loc <->
  exists fields rest lat lon,
    env (Geocode place_name) = Body (JArr (JObj fields :: rest)) /\
    assoc "lat" fields = Some lat /\
    assoc "lon" fields = Some lon /\
    py_float lat = Ret (loc_latitude loc) /\
    py_float lon = Ret (loc_longitude loc) /\
    assoc "display_name" fields = Some (loc_display_name loc) /\
    loc_name loc = place_name.
Proof.
  rewrite get_coordinates_body. split.
  - intros H.
    destruct (env (Geocode place_name)) as [ | code | | data]; try discriminate H.
    cbn [body_of bind] in H.
    destruct (parse_location py_float place_name data) as [l | e] eqn:Hparse;
      simpl in H; [ | discriminate H].
    subst l. apply parse_location_Some in Hparse.
    destruct Hparse as (fields & rest & lat & lon & -> & Hrest).
    exists fields, rest, lat, lon. split; [reflexivity | exact Hrest].
  - intros (fields & rest & lat & lon & -> & Hrest).
    cbn [body_of bind].
    assert (Hparse : parse_location py_float place_name (JArr (JObj fields :: rest))
                     = Ret (Some loc)).
    { apply parse_location_Some. exists fields, rest, lat, lon.
      split; [reflexivity | exact Hrest]. }
    rewrite Hparse. reflexivity.
Qed.

(** X12.  The geocoder adapter returns no location without a diagnostic
    exactly when the body parses to a falsy value: the empty list of zero
    matches, but also [null], [false], [0], the empty string and the empty
    object. *)
Theorem geocode_silent_none (place_name : string) (env : providers) :
  get_coordinates py_float place_name env = (None, [Sent (Geocode place_name)]) <->
  exists data, env (Geocode place_name) = Body data /\ truthy data = false.
Proof.
  rewrite get_coordinates_body. split.
  - intros H.
    destruct (env (Geocode place_name)) as [ | code | | data]; try discriminate H.
    exists data. split; [reflexivity | ].
    cbn [body_of bind] in H. unfold parse_location in H.
    destruct (truthy data) eqn:Htruthy; [ | reflexivity].
    exfalso. cbn [negb] in H.
    destruct (location_data <- py_first data ;; _) as [[l | ] | e] eqn:Hparse;
      try discriminate H.
    bind_inv Hparse as location_data Hfirst.
    bind_inv Hparse as lat Hlat.
    bind_inv Hparse as latitude Hlatitude.
    bind_inv Hparse as lon Hlon.
    bind_inv Hparse as longitude Hlongitude.
    bind_inv Hparse as display_name Hdisplay.
    discriminate Hparse.
  - intros (data & -> & Htruthy). cbn [body_of bind].
    unfold parse_location. rewrite Htruthy. reflexivity.
Qed.

(** X13.  When the geocoding lookup raises (no connection, an error
    status, a body that does not parse, or a first match without [lat],
    [lon] or [display_name]) the run shows two notices, the diagnostic and
    then the not-found notice, and sends no further request, whatever the
    flags. *)
Theorem geocode_failure_two_notices
    (place_name : string) (gw gp : bool) (env : providers) (e : exc) :
  bind (body_of (env (Geocode place_name))) (parse_location py_float place_name)
  = Raise e ->
  process_query py_float place_name gw gp env =
  (mkOutcome None None None,
   [Spinner Geocoding; Sent (Geocode place_name);
    StError Geocoding e; StErrorNotFound place_name]).
Proof.
  intros Hraise. rewrite process_query_eq, get_coordinates_body, Hraise.
  reflexivity.
Qed.

Lemma get_coordinates_found (place_name : string) (env : providers) (loc : Location) :
  fst (get_coordinates py_float place_name env) = Some loc ->
  get_coordinates py_float place_name env = (Some loc, [Sent (Geocode place_name)]).
Proof.
  rewrite get_coordinates_body.
  destruct (bind _ _) as [l | e]; simpl; intros H; [subst l; reflexivity | discriminate H].
Qed.

Lemma write_places_notices (ps : list Place) :
  forall (idx : Z) (env : providers),
    notices (snd (write_places idx ps env)) = snd (write_places idx ps env).
Proof.
  induction ps as [ | q rest IH]; intros idx env; simpl.
  - reflexivity.
  - unfold io_bind, emit. pose proof (IH (idx + 1) env) as Hrest.
    destruct (write_places (idx + 1) rest env) as [u t]. simpl in *.
    rewrite Hrest. reflexivity.
Qed.

Lemma show_places_notices (ps : list Place) (env : providers) :
  notices (snd (show_places ps env)) = snd (show_places ps env).
Proof.
  destruct ps as [ | q rest]; [reflexivity | ].
  unfold show_places, io_bind, emit.
  pose proof (write_places_notices (q :: rest) 1 env) as Hlines.
  destruct (write_places 1 (q :: rest) env) as [u t]. simpl in *.
  rewrite Hlines. reflexivity.
Qed.

(** X15.  What stays on the page after a run that found the place: the
    success notice; then, if the weather was asked for, the weather panel
    of three metrics or, when the lookup failed, its diagnostic alone;
    then, if the places were asked for, the places panel or, when the list
    is empty, the warning, which a failed lookup shows too, after its
    diagnostic. *)
Theorem notices_of_a_run
    (place_name : string) (gw gp : bool) (env : providers) (loc : Location) :
  fst (get_coordinates py_float place_name env) = Some loc ->
  notices (snd (process_query py_float place_name gw gp env)) =
  StSuccess (loc_display_name loc) ::
  (if gw then
     match bind (body_of (env (forecast_of loc))) parse_weather with
     | Ret w => [ StSubheader Weather;
                  StMetric "Temperature" (temperature w);
                  StMetric "Conditions" (JStr (title (description w)));
                  StMetric "Rain Chance" (rain_chance w) ]
     | Raise e => [StError Weather e]
     end
   else []) ++
  (if gp then
     match bind (body_of (env (overpass_of loc 5))) (parse_places 5) with
     | Ret ps => snd (show_places ps env)
     | Raise e => [StError Places e; StWarning]
     end
   else []).
Proof.
  intros Hloc. rewrite process_query_eq.
  rewrite (get_coordinates_found _ _ _ Hloc).
  assert (Hw : notices (snd (weather_stage loc gw env)) =
               if gw then
                 match bind (body_of (env (forecast_of loc))) parse_weather with
                 | Ret w => [ StSubheader Weather;
                              StMetric "Temperature" (temperature w);
                              StMetric "Conditions" (JStr (title (description w)));
                              StMetric "Rain Chance" (rain_chance w) ]
                 | Raise e => [StError Weather e]
                 end
               else []).
  { destruct gw; [ | reflexivity].
    unfold weather_stage, io_bind, emit, io_ret, get_weather.
    rewrite try_except_eq. fold (forecast_of loc).
    destruct (bind (body_of (env (forecast_of loc))) parse_weather); reflexivity. }
  assert (Hp : notices (snd (places_stage loc gp env)) =
               if gp then
                 match bind (body_of (env (overpass_of loc 5))) (parse_places 5) with
                 | Ret ps => snd (show_places ps env)
                 | Raise e => [StError Places e; StWarning]
                 end
               else []).
  { destruct gp; [ | reflexivity].
    unfold places_stage, io_bind, emit, io_ret, get_tourist_attractions.
    rewrite try_except_eq. fold (overpass_of loc 5).
    destruct (bind (body_of (env (overpass_of loc 5))) (parse_places 5)) as [ps | e];
      [ | reflexivity].
    pose proof (show_places_notices ps env) as Hshow.
    destruct (show_places ps env) as [u t]. simpl in *.
    rewrite notices_app, Hshow. simpl. rewrite app_nil_r. reflexivity. }
  destruct (weather_stage loc gw env) as [w tw].
  destruct (places_stage loc gp env) as [ps tp]. simpl in *.
  rewrite notices_app, Hw, Hp. reflexivity.
Qed.

(** X16.  The places a run shows are at most five, under pairwise distinct
    names. *)
Theorem run_shows_five_distinct
    (place : string) (gw gp : bool) (env : providers) (ps : list Place) :
  out_places (fst (process_query py_float place gw gp env)) = Some ps ->
  (List.length ps <= 5)%nat /\ NoDup (map place_name ps).
Proof.
  rewrite process_query_eq.
  destruct (get_coordinates py_float place env) as [[loc | ] t];
    [ | discriminate].
  pose proof (places_stage_spec loc gp env) as [Hfound _].
  destruct (weather_stage loc gw env) as [w tw].
  destruct (places_stage loc gp env) as [found tp]. simpl in *.
  intros Hps. subst found.
  destruct gp; [ | discriminate Hps]. injection Hps as <-.
  destruct (get_tourist_attractions_unique_ordered loc 5 env) as (Hnd & Hlen & _).
  split; [lia | exact Hnd].
Qed.

(** X17.  The stages do not leak into one another: the places of a run do
    not depend on what the forecast service answers, and its weather does
    not depend on what the places service answers. *)
Theorem stages_independent
    (place_name : string) (gw gp : bool) (env env' : providers) :
  ((forall r, (forall lat lon, r <> Forecast lat lon) -> env r = env' r) ->
   out_location (fst (process_query py_float place_name gw gp env)) =
   out_location (fst (process_query py_float place_name gw gp env')) /\
   out_places (fst (process_query py_float place_name gw gp env)) =
   out_places (fst (process_query py_float place_name gw gp env'))) /\
  ((forall r, (forall lat lon n, r <> Overpass lat lon n) -> env r = env' r) ->
   out_location (fst (process_query py_float place_name gw gp env)) =
   out_location (fst (process_query py_float place_name gw gp env')) /\
   out_weather (fst (process_query py_float place_name gw gp env)) =
   out_weather (fst (process_query py_float place_name gw gp env'))).
Proof.
  split; intros Hsame; rewrite !process_query_eq;
    rewrite <- (get_coordinates_ext py_float place_name env env')
      by (apply Hsame; intros; discriminate);
    (destruct (get_coordinates py_float place_name env) as [[loc | ] t];
     [ | split; reflexivity]).
  - rewrite <- (places_stage_ext loc gp env env')
      by (intros _; apply Hsame; intros; discriminate).
    destruct (weather_stage loc gw env) as [w tw].
    destruct (weather_stage loc gw env') as [w' tw'].
    destruct (places_stage loc gp env) as [ps tp]. split; reflexivity.
  - rewrite <- (weather_stage_ext loc gw env env')
      by (intros _; apply Hsame; intros; discriminate).
    destruct (weather_stage loc gw env) as [w tw].
    destruct (places_stage loc gp env) as [ps tp].
    destruct (places_stage loc gp env') as [ps' tp']. split; reflexivity.
Qed.

End Geocoder.

(** X1.  For a limit of at least one the returned places have pairwise
    distinct names, are at most [limit], and are built from candidates of
    the response in the order of the response, whatever the response
    is. *)
Theorem places_distinct_and_capped
    (location : Location) (limit : Z) (env : providers) :
  1 <= limit ->
  NoDup (map place_name (fst (get_tourist_attractions location limit env))) /\
  Z.of_nat (List.length (fst (get_tourist_attractions location limit env))) <= limit /\
  (fst (get_tourist_attractions location limit env) = [] \/
   exists elements,
     offered env location limit elements /\
     picks (fst (get_tourist_attractions location limit env)) elements).
Proof.
  intros Hlimit.
  destruct (get_tourist_attractions_unique_ordered location limit env)
    as (Hnd & Hlen & Hpicks).
  split; [exact Hnd | split; [lia | exact Hpicks]].
Qed.

Lemma places_distinct_and_capped_witness :
  NoDup (map place_name
           (fst (get_tourist_attractions sample_location 1
                   (fun _ => Body sample_features)))) /\
  Z.of_nat (List.length
              (fst (get_tourist_attractions sample_location 1
                      (fun _ => Body sample_features)))) <= 1 /\
  (fst (get_tourist_attractions sample_location 1
          (fun _ => Body sample_features)) = [] \/
   exists elements,
     offered (fun _ => Body sample_features) sample_location 1 elements /\
     picks (fst (get_tourist_attractions sample_location 1
                   (fun _ => Body sample_features))) elements).
Proof.
  apply (places_distinct_and_capped sample_location 1 (fun _ => Body sample_features)).
  lia.
Defined.

(** ** Sample runs of the geocoder *)

Lemma geocode_success_witness :
  fst (get_coordinates sample_float "Paris" sample_env) = Some sample_location.
Proof.
  apply (proj2 (geocode_success sample_float "Paris" sample_env sample_location)).
  exists [("lat", JStr "48.8566"); ("lon", JStr "2.3522");
          ("display_name", JStr "Paris, France")], [], (JStr "48.8566"), (JStr "2.3522").
  repeat split; reflexivity.
Defined.

Lemma geocode_silent_none_witness :
  get_coordinates sample_float "Atlantis" (fun _ => Body (JObj [])) =
  (None, [Sent (Geocode "Atlantis")]).
Proof.
  apply (proj2 (geocode_silent_none sample_float "Atlantis" (fun _ => Body (JObj [])))).
  exists (JObj []). split; reflexivity.
Defined.

Lemma geocode_failure_two_notices_witness :
  process_query sample_float "Paris" true true
    (fun _ => Body (JArr [JObj [("lat", JStr "48.8566")]])) =
  (mkOutcome None None None,
   [Spinner Geocoding; Sent (Geocode "Paris");
    StError Geocoding KeyError; StErrorNotFound "Paris"]).
Proof.
  apply (geocode_failure_two_notices sample_float "Paris" true true
           (fun _ => Body (JArr [JObj [("lat", JStr "48.8566")]])) KeyError).
  reflexivity.
Defined.

Lemma notices_of_a_run_witness :
  notices (snd (process_query sample_float "Paris" true true sample_env)) =
  [ StSuccess (JStr "Paris, France");
    StError Weather (HTTPError 503);
    StSubheader Places;
    StWrite 1 (JStr "Louvre") "Museum";
    StWrite 2 (JStr "Colonne de Juillet") "Historic Monument" ].
Proof.
  exact (notices_of_a_run sample_float "Paris" true true sample_env
           sample_location eq_refl).
Defined.

Lemma run_shows_five_distinct_witness :
  (2 <= 5)%nat /\
  NoDup [JStr "Louvre"; JStr "Colonne de Juillet"].
Proof.
  exact (run_shows_five_distinct sample_float "Paris" true true sample_env
           [mkPlace (JStr "Louvre") "Museum" (JInt 48) (JInt 2);
            mkPlace (JStr "Colonne de Juillet") "Historic Monument" (JInt 48) (JInt 2)]
           eq_refl).
Defined.

Lemma stages_independent_witness :
  out_location (fst (process_query sample_float "Paris" true true sample_env)) =
  out_location (fst (process_query sample_float "Paris" true true
                       (fun r => match r with
                                 | Forecast _ _ => Body sample_forecast
                                 | _ => sample_env r
                                 end))) /\
  out_places (fst (process_query sample_float "Paris" true true sample_env)) =
  out_places (fst (process_query sample_float "Paris" true true
                     (fun r => match r with
                               | Forecast _ _ => Body sample_forecast
                               | _ => sample_env r
                               end))).
Proof.
  apply (proj1 (stages_independent sample_float "Paris" true true sample_env
                  (fun r => match r with
                            | Forecast _ _ => Body sample_forecast
                            | _ => sample_env r
                            end))).
  intros r Hr. destruct r as [q | lat lon | lat lon n]; try reflexivity.
  exfalso. apply (Hr lat lon). reflexivity.
Defined.

(** ** The set of seen names *)

Lemma visit_with_visit (S : seen_set) (limit : Z) (a : acc)
    (seen : carrier S) (element : json) :
  (forall k, set_mem S k seen = key_in k (seen_names a)) ->
  match visit_with S limit (places a) seen element, visit limit a element with
  | Ret (stop, ps', seen'), Ret f =>
      f = (if stop then Break (flow_acc f) else Next (flow_acc f)) /\
      ps' = places (flow_acc f) /\
      forall k, set_mem S k seen' = key_in k (seen_names (flow_acc f))
  | Raise e, Raise e' => e = e'
  | _, _ => False
  end.
Proof.
  intros Hmem. unfold visit_with, visit.
  destruct (coordinates element) as [[[lat lon] | ] | e]; cbn [bind];
    [ | repeat split; try reflexivity; exact Hmem | reflexivity].
  destruct (py_get element "tags" (JObj [])) as [tags | e]; cbn [bind];
    [ | reflexivity].
  destruct (py_get tags "name" (JStr "")) as [name | e]; cbn [bind];
    [ | reflexivity].
  destruct (truthy name); cbn [negb];
    [ | repeat split; try reflexivity; exact Hmem].
  destruct (py_hash name) as [k | e]; cbn [bind]; [ | reflexivity].
  rewrite (Hmem k).
  destruct (key_in k (seen_names a));
    [repeat split; try reflexivity; exact Hmem | ].
  destruct (py_get tags "historic" (JStr "attraction")) as [historic | e];
    cbn [bind]; [ | reflexivity].
  destruct (py_get tags "tourism" historic) as [attraction_type | e];
    cbn [bind]; [ | reflexivity].
  destruct (py_replace_title attraction_type) as [type | e]; cbn [bind];
    [ | reflexivity].
  cbn [places].
  destruct (Z.of_nat (List.length (places a ++ [mkPlace name type lat lon])) >=? limit);
    cbn [flow_acc places seen_names];
    (repeat split; try reflexivity);
    intros k'; rewrite (mem_add S), (Hmem k');
    symmetry; apply (mem_add newest_first).
Qed.

Lemma for_each_with_for_each (S : seen_set) (limit : Z) (elements : list json) :
  forall (a : acc) (seen : carrier S),
    (forall k, set_mem S k seen = key_in k (seen_names a)) ->
    for_each_with S limit elements (places a) seen = for_each limit elements a.
Proof.
  induction elements as [ | element rest IH]; intros a seen Hmem; simpl.
  - reflexivity.
  - pose proof (visit_with_visit S limit a seen element Hmem) as Hstep.
    destruct (visit_with S limit (places a) seen element) as [[[stop ps'] seen'] | e];
      destruct (visit limit a element) as [f | e']; try contradiction; cbn [bind].
    + destruct Hstep as (Hf & -> & Hmem'). rewrite Hf.
      destruct stop; [reflexivity | ]. apply IH. exact Hmem'.
    + rewrite Hstep. reflexivity.
Qed.

(** The lookup returns and reports the same, whatever the implementation
    of the set of seen names. *)
Lemma get_tourist_attractions_any_set (S : seen_set)
    (location : Location) (limit : Z) (env : providers) :
  get_tourist_attractions_with S location limit env =
  get_tourist_attractions location limit env.
Proof.
  unfold get_tourist_attractions_with, get_tourist_attractions.
  rewrite !try_except_eq.
  assert (Hparse : forall data, parse_places_with S limit data = parse_places limit data).
  { intros data. unfold parse_places_with, parse_places.
    destruct (py_get data "elements" (JArr [])) as [elements | e]; cbn [bind];
      [ | reflexivity].
    destruct (py_iter elements) as [items | e]; cbn [bind]; [ | reflexivity].
    apply (for_each_with_for_each S limit items (mkAcc [] []) (set_empty S)).
    intros k. rewrite (mem_empty S). reflexivity. }
  destruct (body_of _) as [data | e]; cbn [bind]; [ | reflexivity].
  rewrite Hparse. reflexivity.
Qed.

Section Determinism.

Variable py_float : json -> exn spec_float.

Lemma process_query_any_set (S : seen_set)
    (place_name : string) (gw gp : bool) (env : providers) :
  process_query_with S py_float place_name gw gp env =
  process_query py_float place_name gw gp env.
Proof.
  unfold process_query_with, process_query, io_bind.
  destruct (emit (Spinner Geocoding) env) as [u t0].
  destruct (get_coordinates py_float place_name env) as [[loc | ] t]; [ | reflexivity].
  destruct (emit (StSuccess (loc_display_name loc)) env) as [u1 t1].
  destruct (if gw then _ else _) as [w tw].
  destruct gp; [ | reflexivity].
  destruct (emit (Spinner Places) env) as [u2 t2].
  rewrite get_tourist_attractions_any_set. reflexivity.
Qed.

(** C9.  Two runs on the same place name and flags have the same outcome
    (location, weather and the places in the same order) and the same trace
    whenever the providers answer alike every request the first run sends,
    whatever way each of the two runs stores its set of seen names: the
    order inside the set, the one thing in the pipeline that can vary from
    run to run, does not show in the result.  The run of the model, whose
    set is a list, is one of them. *)
Theorem process_query_deterministic
    (S S' : seen_set) (place_name : string) (gw gp : bool) (env env' : providers) :
  (forall r,
      In r (requests_of (snd (process_query_with S py_float place_name gw gp env))) ->
      env r = env' r) ->
  process_query_with S py_float place_name gw gp env =
  process_query_with S' py_float place_name gw gp env' /\
  process_query_with S py_float place_name gw gp env =
  process_query py_float place_name gw gp env.
Proof.
  intros Hsame. rewrite !process_query_any_set in *.
  split; [ | reflexivity].
  apply process_query_ext. exact Hsame.
Qed.

End Determinism.

Lemma process_query_deterministic_witness :
  process_query_with newest_first sample_float "Paris" true true sample_env =
  process_query_with oldest_first sample_float "Paris" true true other_env /\
  process_query_with newest_first sample_float "Paris" true true sample_env =
  process_query sample_float "Paris" true true sample_env.
Proof.
  apply (process_query_deterministic sample_float newest_first oldest_first
           "Paris" true true sample_env other_env).
  intros r Hr. vm_compute in Hr.
  destruct Hr as [<- | [<- | [<- | []]]]; reflexivity.
Defined.
